(** * myphysicslab: solver selection and the MagnetWheel simulation

    A shallow embedding of

    - [myphysicslab.lab.model.DiffEqSolverSubject] (registry of
      differential-equation solvers, [getDiffEqSolver], [setDiffEqSolver]);
    - [myphysicslab.sims.misc.MagnetWheelSim] ([evaluate], [modifyObjects],
      [getEnergyInfo], [setPotentialEnergy], [setMass], ...).

    JavaScript numbers are IEEE 754 binary64 values and are modelled by the
    primitive type [float]; objects are records threaded through the
    functions that mutate them; a JavaScript [throw] is an outcome of its own
    ([Throw]), distinct from every returned value. *)

From Stdlib Require Import Floats.
From stdpp Require Import base list strings.

#[local] Set Warnings "-inexact-float".

Local Open Scope string_scope.
Local Open Scope list_scope.

(** ** Outcomes of a call *)

(** A call either returns a value or throws; the thrown value is an [Error]
    (or a string), of which only the message is kept. *)
Inductive completion (A : Type) : Type :=
| Normal (a : A)
| Throw (message : string).
Arguments Normal {A} a.
Arguments Throw {A} message.

Definition returns {A : Type} (c : completion A) : bool :=
  match c with Normal _ => true | Throw _ => false end.

(** Modelled from the spec: [AbstractSubject.broadcast] and the observers are
    not under src.  A broadcast of a Parameter is one notification event
    delivered to the observers; the event names the Parameter, and an observer
    reading the Parameter while it is notified sees the value its getter
    returns at that moment.  The subject keeps the events it has emitted,
    oldest first. *)
Record ParameterEvent (V : Type) : Type := mkEvent {
  ev_name : string;
  ev_value : V
}.
Arguments mkEvent {V} ev_name ev_value.
Arguments ev_name {V} _.
Arguments ev_value {V} _.

(** ** DiffEqSolverSubject *)

Module SolverSubject.

Section Subject.

(** The simulation and the energy system are foreign objects that the subject
    only passes on to the solvers it creates. *)
Context {ODESim EnergySystem : Type}.

(** The solver classes instantiated by the constructor. *)
Inductive DiffEqSolver : Type :=
| EulersMethod (sim : ODESim)
| ModifiedEuler (sim : ODESim)
| RungeKutta (sim : ODESim)
| AdaptiveStepSolver (sim : ODESim) (energySystem : EnergySystem)
    (odeSolver : DiffEqSolver).

Definition isAdaptive (s : DiffEqSolver) : bool :=
  match s with AdaptiveStepSolver _ _ _ => true | _ => false end.

(** The two methods of the [DiffEqSolver] interface that the subject calls.
    Their implementations live with the solver classes, which are not under
    src: [getName s localized] is [s.getName(localized)] and [nameEquals s v]
    is [s.nameEquals(v)]. *)
Class SolverNaming : Type := {
  getName : DiffEqSolver -> bool -> string;
  nameEquals : DiffEqSolver -> string -> bool
}.

Context {naming : SolverNaming}.

(** Modelled from the spec: [ODEAdvance] is not under src; of the advance
    strategy the subject uses only the active solver it holds
    ([getDiffEqSolver], [setDiffEqSolver]). *)
Record ODEAdvance : Type := mkAdvance {
  odeSolver_ : DiffEqSolver
}.

(** Modelled from the spec: [ODEAdvance.getDiffEqSolver], the active
    solver. *)
Definition ODEAdvance_getDiffEqSolver (a : ODEAdvance) : DiffEqSolver :=
  odeSolver_ a.

(** Modelled from the spec: [ODEAdvance.setDiffEqSolver] swaps the active
    solver. *)
Definition ODEAdvance_setDiffEqSolver (s : DiffEqSolver) (a : ODEAdvance)
  : ODEAdvance :=
  mkAdvance s.

(** The [ParameterString] made by the constructor: its language-independent
    name, the localized choices and the language-independent values. *)
Record ParameterString : Type := mkParameterString {
  param_name : string;
  param_choices : list string;
  param_values : list string
}.

Record DiffEqSolverSubject : Type := mkSubject {
  name_ : string;
  sim_ : ODESim;
  energySystem_ : option EnergySystem;
  advanceStrategy_ : ODEAdvance;
  solvers_ : list DiffEqSolver;
  paramList_ : list ParameterString;
  notified_ : list (ParameterEvent string)
}.

(** [DiffEqSolverSubject.en.DIFF_EQ_SOLVER] *)
Definition en_DIFF_EQ_SOLVER : string := "Diff Eq Solver".

(** [opt_name || 'DIFF_EQ_SUBJECT']: an absent or empty name is falsy. *)
Definition name_or_default (opt_name : option string) : string :=
  match opt_name with
  | Some n => if String.eqb n "" then "DIFF_EQ_SUBJECT" else n
  | None => "DIFF_EQ_SUBJECT"
  end.

(** The pushes onto [solvers_] made by the constructor, in order. *)
Definition make_solvers (sim : ODESim) (energySystem : option EnergySystem)
  : list DiffEqSolver :=
  let solvers := [] in
  let solvers := solvers ++ [EulersMethod sim] in
  let solvers := solvers ++ [ModifiedEuler sim] in
  let solvers := solvers ++ [RungeKutta sim] in
  match energySystem with
  | Some es =>
      let solver := AdaptiveStepSolver sim es (ModifiedEuler sim) in
      let solvers := solvers ++ [solver] in
      let solver := AdaptiveStepSolver sim es (RungeKutta sim) in
      solvers ++ [solver]
  | None => solvers
  end.

(** The constructor. *)
Definition new_DiffEqSolverSubject (sim : ODESim)
    (energySystem : option EnergySystem) (advanceStrategy : ODEAdvance)
    (opt_name : option string) : DiffEqSolverSubject :=
  let solvers := make_solvers sim energySystem in
  let choices := map (fun s => getName s true) solvers in
  let values := map (fun s => getName s false) solvers in
  {| name_ := name_or_default opt_name;
     sim_ := sim;
     energySystem_ := energySystem;
     advanceStrategy_ := advanceStrategy;
     solvers_ := solvers;
     paramList_ := [mkParameterString en_DIFF_EQ_SOLVER choices values];
     notified_ := [] |}.

Definition getDiffEqSolver (this : DiffEqSolverSubject) : string :=
  getName (ODEAdvance_getDiffEqSolver (advanceStrategy_ this)) false.

Definition with_advanceStrategy (a : ODEAdvance) (this : DiffEqSolverSubject)
  : DiffEqSolverSubject :=
  {| name_ := name_ this; sim_ := sim_ this;
     energySystem_ := energySystem_ this;
     advanceStrategy_ := a;
     solvers_ := solvers_ this; paramList_ := paramList_ this;
     notified_ := notified_ this |}.

(** Modelled from the spec: [AbstractSubject.broadcastParameter] is not under
    src; it emits one notification for the named Parameter.  The only
    Parameter of this subject is the solver choice, whose getter is
    [getDiffEqSolver]. *)
Definition broadcastParameter (name : string) (this : DiffEqSolverSubject)
  : DiffEqSolverSubject :=
  {| name_ := name_ this; sim_ := sim_ this;
     energySystem_ := energySystem_ this;
     advanceStrategy_ := advanceStrategy_ this;
     solvers_ := solvers_ this; paramList_ := paramList_ this;
     notified_ := notified_ this ++ [mkEvent name (getDiffEqSolver this)] |}.

(** [goog.array.find]: the first element satisfying the predicate, or null. *)
Definition goog_array_find {A : Type} (arr : list A) (f : A -> bool)
  : option A :=
  List.find f arr.

(** [setDiffEqSolver(value)]: the outcome and the subject afterwards. *)
Definition setDiffEqSolver (value : string) (this : DiffEqSolverSubject)
  : completion unit * DiffEqSolverSubject :=
  if negb (nameEquals (ODEAdvance_getDiffEqSolver (advanceStrategy_ this)) value)
  then
    match goog_array_find (solvers_ this) (fun s => nameEquals s value) with
    | Some solver =>
        let this :=
          with_advanceStrategy
            (ODEAdvance_setDiffEqSolver solver (advanceStrategy_ this)) this in
        let this := broadcastParameter en_DIFF_EQ_SOLVER this in
        (Normal tt, this)
    | None => (Throw ("unknown solver: " +:+ value), this)
    end
  else (Normal tt, this).

End Subject.

Arguments DiffEqSolver : clear implicits.
Arguments SolverNaming : clear implicits.
Arguments ODEAdvance : clear implicits.
Arguments DiffEqSolverSubject : clear implicits.

End SolverSubject.

(** ** MagnetWheelSim *)

Module WheelSim.

(** *** JavaScript arrays of numbers *)

(** An array element is a number or [undefined] (a hole, or an index past
    the end). *)
Abbreviation JsArray := (list (option float)).

(** [a[i]] as an expression. *)
Definition aget (a : JsArray) (i : nat) : option float :=
  match a !! i with
  | Some v => v
  | None => None
  end.

(** The number an arithmetic operator sees: [undefined] converts to NaN. *)
Definition toNumber (v : option float) : float :=
  match v with
  | Some x => x
  | None => nan
  end.

(** [a[i] = v]: an assignment past the end extends the array, leaving holes. *)
Definition aset (i : nat) (v : option float) (a : JsArray) : JsArray :=
  if decide (i < length a) then <[i := v]> a
  else a ++ replicate (i - length a) None ++ [v].

(** [new Array(n)] *)
Definition new_Array (n : nat) : JsArray := replicate n None.

(** Modelled from the spec: [Util.zeroArray] is not under src; it sets every
    element of the array to zero, so that a derivative slot that is not
    written afterwards is zero. *)
Definition zeroArray (a : JsArray) : JsArray :=
  (fun _ => Some 0%float) <$> a.

(** *** Vector *)

(** Modelled from the spec: [lab.util.Vector] is not under src; an immutable
    point of the plane with the usual scaling and squared length. *)
Record Vector : Type := mkVector {
  getX : float;
  getY : float
}.

(** Modelled from the spec: [Vector.multiply], scaling by a factor. *)
Definition Vector_multiply (v : Vector) (factor : float) : Vector :=
  mkVector (factor * getX v)%float (factor * getY v)%float.

(** Modelled from the spec: [Vector.lengthSquared]. *)
Definition Vector_lengthSquared (v : Vector) : float :=
  (getX v * getX v + getY v * getY v)%float.

(** *** The wheel *)

(** Modelled from the spec: [sims.misc.MagnetWheel] is not under src.  The
    fields are the ones behind the accessors the simulation calls
    ([getMass], [setMass], [getRadius], [getMagnets], [setAngle],
    [setAngularVelocity]); the magnets are given in body coordinates. *)
Record MagnetWheel : Type := mkWheel {
  mass_ : float;
  radius_ : float;
  magnets_ : list Vector;
  angle_ : option float;
  angularVelocity_ : option float
}.

(** Modelled from the spec: the setters of the wheel store their argument. *)
Definition Wheel_setMass (m : float) (w : MagnetWheel) : MagnetWheel :=
  mkWheel m (radius_ w) (magnets_ w) (angle_ w) (angularVelocity_ w).

(** Modelled from the spec: [setAngle] stores the angle it is given. *)
Definition Wheel_setAngle (a : option float) (w : MagnetWheel) : MagnetWheel :=
  mkWheel (mass_ w) (radius_ w) (magnets_ w) a (angularVelocity_ w).

(** Modelled from the spec: [setAngularVelocity] stores the velocity it is
    given. *)
Definition Wheel_setAngularVelocity (v : option float) (w : MagnetWheel)
  : MagnetWheel :=
  mkWheel (mass_ w) (radius_ w) (magnets_ w) (angle_ w) v.

(** The methods of the wheel whose results depend on geometry and inertia
    that the simulation never sees: the factory [MagnetWheel.make], the
    rigid-body map [bodyToWorld] and [getKineticEnergy]. *)
Class WheelMethods : Type := {
  Wheel_make : float -> string -> MagnetWheel;
  bodyToWorld : MagnetWheel -> Vector -> Vector;
  getKineticEnergy : MagnetWheel -> float
}.

(** *** VarsList *)

(** Modelled from the spec: [lab.model.VarsList] and its variables are not
    under src.  A slot has a name, a value, a change-sequence counter and a
    computed flag. *)
Record ConcreteVariable : Type := mkVariable {
  var_name : string;
  value_ : float;
  seq_ : nat;
  isComputed_ : bool
}.

Abbreviation VarsList := (list ConcreteVariable).

(** Modelled from the spec: the [VarsList] constructor makes one slot per
    name, with value 0, counter 0 and not computed. *)
Definition new_VarsList (var_names : list string) : VarsList :=
  (fun n => mkVariable n 0%float 0 false) <$> var_names.

(** Modelled from the spec: [read()], a snapshot of the values
    ([VarsList.getValues]). *)
Definition getValues (va : VarsList) : JsArray :=
  (fun v => Some (value_ v)) <$> va.

(** Modelled from the spec: marking one slot computed. *)
Definition Variable_setComputed (v : ConcreteVariable) : ConcreteVariable :=
  mkVariable (var_name v) (value_ v) (seq_ v) true.

(** Modelled from the spec: incrementing the counter of one slot. *)
Definition Variable_incrSequence (v : ConcreteVariable) : ConcreteVariable :=
  mkVariable (var_name v) (value_ v) (S (seq_ v)) (isComputed_ v).

(** Modelled from the spec: a write replaces the value; a write that is not
    continuous increments the counter when the value differs from the prior
    one ([!=] on numbers). *)
Definition Variable_write (continuous : bool) (x : float)
    (v : ConcreteVariable) : ConcreteVariable :=
  mkVariable (var_name v) x
    (if continuous then seq_ v
     else if negb (PrimFloat.eqb (value_ v) x) then S (seq_ v) else seq_ v)
    (isComputed_ v).

(** Modelled from the spec: [markComputed(slotIndices)]. *)
Definition setComputed (indexes : list nat) (va : VarsList) : VarsList :=
  foldl (fun va i => alter Variable_setComputed i va) va indexes.

(** Modelled from the spec: the counters of the listed slots are incremented
    once each. *)
Definition incrSequence (indexes : list nat) (va : VarsList) : VarsList :=
  foldl (fun va i => alter Variable_incrSequence i va) va indexes.

(** Modelled from the spec: a write of one slot. *)
Definition setValue (index : nat) (x : float) (continuous : bool)
    (va : VarsList) : VarsList :=
  alter (Variable_write continuous x) index va.

(** Modelled from the spec: [write(values, continuous)] replaces all slot
    values and fails with ShapeMismatch, changing nothing, when the sequence
    has the wrong length. *)
Definition setValues (vars : JsArray) (continuous : bool) (va : VarsList)
  : completion unit * VarsList :=
  if decide (length vars = length va)
  then (Normal tt,
        zip_with (fun x v => Variable_write continuous (toNumber x) v) vars va)
  else (Throw "ShapeMismatch", va).

(** *** EnergyInfo *)

(** Modelled from the spec: [lab.model.EnergyInfo] is not under src.  It
    holds the five numbers given to its constructor; the total energy is the
    potential plus the translational energy, plus the rotational energy when
    that one is a number. *)
Record EnergyInfo : Type := new_EnergyInfo {
  getPotential : float;
  getTranslational : float;
  getRotational : float;
  getWorkDone : float;
  getInitialEnergy : float
}.

(** Modelled from the spec: [EnergyInfo.getTotalEnergy]. *)
Definition getTotalEnergy (ei : EnergyInfo) : float :=
  let tot := (getPotential ei + getTranslational ei)%float in
  if negb (PrimFloat.is_nan (getRotational ei))
  then (tot + getRotational ei)%float
  else tot.

(** *** The simulation *)

(** The object returned by a failing [evaluate] ([?Object]); [None] is
    [null]. *)
Inductive Object : Type := mkObject (description : string).

Record MagnetWheelSim : Type := mkSim {
  varsList_ : VarsList;
  wheel_ : MagnetWheel;
  magnetStrength_ : float;
  damping_ : float;
  initialEnergy_ : float;
  potentialOffset_ : float;
  isDragging : bool;
  keyLeft_ : bool;
  keyRight_ : bool;
  keyForce_ : float;
  notified_ : list (ParameterEvent float)
}.

Definition with_varsList (va : VarsList) (this : MagnetWheelSim)
  : MagnetWheelSim :=
  mkSim va (wheel_ this) (magnetStrength_ this) (damping_ this)
    (initialEnergy_ this) (potentialOffset_ this) (isDragging this)
    (keyLeft_ this) (keyRight_ this) (keyForce_ this) (notified_ this).

Definition with_wheel (w : MagnetWheel) (this : MagnetWheelSim)
  : MagnetWheelSim :=
  mkSim (varsList_ this) w (magnetStrength_ this) (damping_ this)
    (initialEnergy_ this) (potentialOffset_ this) (isDragging this)
    (keyLeft_ this) (keyRight_ this) (keyForce_ this) (notified_ this).

Definition with_damping (d : float) (this : MagnetWheelSim) : MagnetWheelSim :=
  mkSim (varsList_ this) (wheel_ this) (magnetStrength_ this) d
    (initialEnergy_ this) (potentialOffset_ this) (isDragging this)
    (keyLeft_ this) (keyRight_ this) (keyForce_ this) (notified_ this).

Definition with_potentialOffset (p : float) (this : MagnetWheelSim)
  : MagnetWheelSim :=
  mkSim (varsList_ this) (wheel_ this) (magnetStrength_ this) (damping_ this)
    (initialEnergy_ this) p (isDragging this)
    (keyLeft_ this) (keyRight_ this) (keyForce_ this) (notified_ this).

Definition with_keys (left right : bool) (this : MagnetWheelSim)
  : MagnetWheelSim :=
  mkSim (varsList_ this) (wheel_ this) (magnetStrength_ this) (damping_ this)
    (initialEnergy_ this) (potentialOffset_ this) (isDragging this)
    left right (keyForce_ this) (notified_ this).

(** [MagnetWheelSim.en] *)
Definition en_DAMPING : string := "damping".
Definition en_MASS : string := "mass".
Definition en_ANGLE : string := "angle".
Definition en_ANGULAR_VELOCITY : string := "angular velocity".

(** Modelled from the spec: the names [VarsList.en.TIME] and
    [EnergySystem.en.*] are constants of files that are not under src; the
    slots are elapsed time and kinetic, potential and total energy. *)
Definition en_TIME : string := "time".
Definition en_KINETIC_ENERGY : string := "kinetic energy".
Definition en_POTENTIAL_ENERGY : string := "potential energy".
Definition en_TOTAL_ENERGY : string := "total energy".

(** Modelled from the spec: [AbstractSubject.broadcastParameter] is not under
    src; it emits one notification for the named Parameter.  [getter] is the
    getter with which the named Parameter was registered. *)
Definition broadcastParameter (name : string)
    (getter : MagnetWheelSim -> float) (this : MagnetWheelSim)
  : MagnetWheelSim :=
  mkSim (varsList_ this) (wheel_ this) (magnetStrength_ this) (damping_ this)
    (initialEnergy_ this) (potentialOffset_ this) (isDragging this)
    (keyLeft_ this) (keyRight_ this) (keyForce_ this)
    (notified_ this ++ [mkEvent name (getter this)]).

Section Sim.

Context {wheelMethods : WheelMethods}.

(** The constructor.  Of [AbstractODESim] only the variables are kept: the
    saved initial state and the list of simulation objects are not read by
    any function below. *)
Definition new_MagnetWheelSim : MagnetWheelSim :=
  (* 0  1   2     3   4   5  *)
  (* a, w, time,  ke, pe, te *)
  let var_names :=
    [en_ANGLE; en_ANGULAR_VELOCITY; en_TIME;
     en_KINETIC_ENERGY; en_POTENTIAL_ENERGY; en_TOTAL_ENERGY] in
  let va := new_VarsList var_names in
  let va := setComputed [3; 4; 5] va in
  let wheel := Wheel_setMass 1%float (Wheel_make 1%float "wheel") in
  let va := setValue 1 3%float false va in
  {| varsList_ := va;
     wheel_ := wheel;
     magnetStrength_ := 1%float;
     damping_ := 0.7%float;
     initialEnergy_ := 0%float;
     potentialOffset_ := 0%float;
     isDragging := false;
     keyLeft_ := false;
     keyRight_ := false;
     keyForce_ := 5%float;
     notified_ := [] |}.

Definition moveObjects (vars : JsArray) (this : MagnetWheelSim)
  : MagnetWheelSim :=
  let wheel := Wheel_setAngle (aget vars 0) (wheel_ this) in
  let wheel := Wheel_setAngularVelocity (aget vars 1) wheel in
  with_wheel wheel this.

Definition getEnergyInfo_ (vars : JsArray) (this : MagnetWheelSim)
  : EnergyInfo :=
  let ke := getKineticEnergy (wheel_ this) in
  let pe := 0%float in
  new_EnergyInfo pe ke nan nan (initialEnergy_ this).

Definition getEnergyInfo (this : MagnetWheelSim)
  : EnergyInfo * MagnetWheelSim :=
  let vars := getValues (varsList_ this) in
  let this := moveObjects vars this in
  (getEnergyInfo_ vars this, this).

Definition setPotentialEnergy (value : float) (this : MagnetWheelSim)
  : MagnetWheelSim :=
  let this := with_potentialOffset 0%float this in
  let '(ei, this) := getEnergyInfo this in
  with_potentialOffset (value - getPotential ei)%float this.

(** The torque of one magnet, added to [change[1]] (one turn of the loop). *)
Definition magnet_step (this : MagnetWheelSim) (m xf yf : float)
    (change : JsArray) (magnet : Vector) : JsArray :=
  let c := bodyToWorld (wheel_ this) magnet in
  let x := getX c in
  let y := getY c in
  let f := mkVector (xf - x)%float (yf - y)%float in
  let f2 :=
    Vector_multiply f (magnetStrength_ this / Vector_lengthSquared f)%float in
  let t := (getX f2 * getY c - getY f2 * getX c)%float in
  let t := (- t)%float in
  aset 1 (Some (toNumber (aget change 1) + t / m)%float) change.

(** [evaluate(vars, change, timeStep)]: the returned object ([None] for
    [null]), the [change] array afterwards and the simulation afterwards. *)
Definition evaluate (vars change : JsArray) (timeStep : float)
    (this : MagnetWheelSim) : option Object * JsArray * MagnetWheelSim :=
  let change := zeroArray change in
  let m := mass_ (wheel_ this) in
  let change := aset 0 (aget vars 1) change in
  let change :=
    aset 1 (Some (- damping_ this * toNumber (aget vars 1) / m)%float) change in
  let change := aset 2 (Some 1%float) change in
  let this := moveObjects vars this in
  let xf := 0%float in
  let yf := (radius_ (wheel_ this) * 0.9)%float in
  let magnets := magnets_ (wheel_ this) in
  let change := foldl (magnet_step this m xf yf) change magnets in
  let change :=
    if keyLeft_ this
    then aset 1 (Some (toNumber (aget change 1) + keyForce_ this)%float) change
    else if keyRight_ this
    then aset 1 (Some (toNumber (aget change 1) + - keyForce_ this)%float) change
    else change in
  (None, change, this).

Definition modifyObjects (this : MagnetWheelSim)
  : completion unit * MagnetWheelSim :=
  let va := varsList_ this in
  let vars := getValues va in
  let this := moveObjects vars this in
  let rate := new_Array (length vars) in
  let '(_, rate, this) := evaluate vars rate 0%float this in
  let ei := getEnergyInfo_ vars this in
  let vars := aset 3 (Some (getTranslational ei)) vars in
  let vars := aset 4 (Some (getPotential ei)) vars in
  let vars := aset 5 (Some (getTotalEnergy ei)) vars in
  let '(r, va) := setValues vars true va in
  (r, with_varsList va this).

(** The modifier flags of a key event, and the key codes of
    [goog.events.KeyCodes] that the simulation listens to.  The call of
    [keyEvent.preventDefault()] acts on the event only and is left out. *)
Record KeyEvent : Type := mkKeyEvent {
  ctrlKey : bool;
  metaKey : bool;
  altKey : bool
}.

Definition KeyCodes_LEFT : nat := 37.
Definition KeyCodes_RIGHT : nat := 39.
Definition KeyCodes_J : nat := 74.
Definition KeyCodes_L : nat := 76.

Definition handleKeyEvent (keyCode : nat) (pressed : bool)
    (keyEvent : KeyEvent) (this : MagnetWheelSim) : MagnetWheelSim :=
  if ctrlKey keyEvent || metaKey keyEvent || altKey keyEvent then this
  else if Nat.eqb keyCode KeyCodes_LEFT || Nat.eqb keyCode KeyCodes_J
  then with_keys pressed (keyRight_ this) this
  else if Nat.eqb keyCode KeyCodes_RIGHT || Nat.eqb keyCode KeyCodes_L
  then with_keys (keyLeft_ this) pressed this
  else this.

Definition getMass (this : MagnetWheelSim) : float :=
  mass_ (wheel_ this).

Definition setMass (value : float) (this : MagnetWheelSim) : MagnetWheelSim :=
  let this := with_wheel (Wheel_setMass value (wheel_ this)) this in
  (* discontinuous change in energy *)
  let this := with_varsList (incrSequence [3; 4; 5] (varsList_ this)) this in
  broadcastParameter en_MASS getMass this.

Definition getDamping (this : MagnetWheelSim) : float :=
  damping_ this.

Definition setDamping (value : float) (this : MagnetWheelSim)
  : MagnetWheelSim :=
  let this := with_damping value this in
  broadcastParameter en_DAMPING getDamping this.

End Sim.

End WheelSim.

(** ** Sample instances for the examples *)

Module Samples.

Import SolverSubject WheelSim.

(** Modelled from the spec: the solver classes are not under src; a solver
    variant is identified by a stable language-independent name, here the
    class name in upper case, with a prefix for the adaptive wrapper, and
    [nameEquals] compares a string with that name. *)
Fixpoint sample_getName {ODESim EnergySystem : Type}
    (s : DiffEqSolver ODESim EnergySystem) (localized : bool) : string :=
  match s with
  | EulersMethod _ => if localized then "Eulers Method" else "EULERS_METHOD"
  | ModifiedEuler _ => if localized then "Modified Euler" else "MODIFIED_EULER"
  | RungeKutta _ => if localized then "Runge-Kutta" else "RUNGE_KUTTA"
  | AdaptiveStepSolver _ _ inner =>
      if localized then "Adaptive-" +:+ sample_getName inner true
      else "ADAPTIVE_" +:+ sample_getName inner false
  end.

#[export] Instance sample_naming {ODESim EnergySystem : Type}
  : SolverNaming ODESim EnergySystem :=
  {| getName := sample_getName;
     nameEquals := fun s v => String.eqb (sample_getName s false) v |}.

(** A subject made by the constructor for a simulation that is also its
    energy system; the advance strategy starts with a Runge-Kutta solver. *)
Definition sample_subject : DiffEqSolverSubject unit unit :=
  new_DiffEqSolverSubject tt (Some tt) (mkAdvance (RungeKutta tt)) None.

(** The same without an energy system. *)
Definition sample_subject_no_energy : DiffEqSolverSubject unit unit :=
  new_DiffEqSolverSubject tt None (mkAdvance (RungeKutta tt)) None.

(** Sine and cosine for the sample wheel: low-order polynomials, exact at
    the angle 0, which is the only angle the examples use. *)
Definition sample_sin (x : float) : float := (x - x * x * x / 6)%float.
Definition sample_cos (x : float) : float := (1 - x * x / 2)%float.

(** A sample wheel centred at the origin with one magnet at distance
    9/10 of the radius 1: [bodyToWorld] rotates by the wheel's angle and the
    kinetic energy is that of the rotation. *)
#[export] Instance sample_wheel : WheelMethods :=
  {| Wheel_make := fun radius name =>
       mkWheel 1%float radius [mkVector 0%float 0.9%float]
         (Some 0%float) (Some 0%float);
     bodyToWorld := fun w p =>
       let sinAngle := sample_sin (toNumber (angle_ w)) in
       let cosAngle := sample_cos (toNumber (angle_ w)) in
       mkVector (0 + (getX p * cosAngle - getY p * sinAngle))%float
                (0 + (getX p * sinAngle + getY p * cosAngle))%float;
     getKineticEnergy := fun w =>
       (0.5 * mass_ w * (toNumber (angularVelocity_ w)
                         * toNumber (angularVelocity_ w)))%float |}.

Definition sample_sim : MagnetWheelSim := new_MagnetWheelSim.

(** The state of the sample simulation with the wheel upright and at rest. *)
Definition upright_vars : JsArray :=
  [Some 0%float; Some 0%float; Some 0%float;
   Some 0%float; Some 0%float; Some 0%float].

End Samples.

(** ** Predicates used in the statements *)

Module Props.

Import SolverSubject WheelSim.

(** Some magnet's world position is the fixed magnet point
    [(0, radius * 0.9)], where the inverse-square force divides by zero. *)
Definition magnet_at_fixed_point {wheelMethods : WheelMethods}
    (vars : JsArray) (this : MagnetWheelSim) : bool :=
  let this := moveObjects vars this in
  existsb
    (fun magnet =>
       let c := bodyToWorld (wheel_ this) magnet in
       PrimFloat.eqb (getX c) 0%float
       && PrimFloat.eqb (getY c) (radius_ (wheel_ this) * 0.9)%float)
    (magnets_ (wheel_ this)).

(** Two numbers are the same number: equal as numbers, or both NaN. *)
Definition same_number (x y : float) : bool :=
  PrimFloat.eqb x y || (PrimFloat.is_nan x && PrimFloat.is_nan y).

(** Classes of binary64 values, on their specification. *)
Definition sf_is_zero (x : spec_float) : bool :=
  match x with S754_zero _ => true | _ => false end.

Definition sf_zero_or_nan (x : spec_float) : bool :=
  match x with S754_zero _ | S754_nan => true | _ => false end.

Definition sf_inf_or_nan (x : spec_float) : bool :=
  match x with S754_infinity _ | S754_nan => true | _ => false end.

(** What the change-sequence counters become when exactly the slots in
    [indexes] are incremented. *)
Definition bumped (indexes : list nat) (seqs : list nat) : list nat :=
  imap (fun i n => if bool_decide (i ∈ indexes) then S n else n) seqs.

(** The array that [modifyObjects] hands to [setValues]: the values read
    from the variables with the slots 3, 4 and 5 overwritten by the kinetic,
    potential and total energy of the [EnergyInfo]. *)
Definition written_vars {wheelMethods : WheelMethods} (this : MagnetWheelSim)
  : JsArray :=
  let ei := (getEnergyInfo this).1 in
  aset 5 (Some (getTotalEnergy ei))
    (aset 4 (Some (getPotential ei))
       (aset 3 (Some (getTranslational ei)) (getValues (varsList_ this)))).

End Props.

(** ** Further operations of the two classes *)

Module Operations.

Import SolverSubject WheelSim.

Section SubjectRuns.

Context {ODESim EnergySystem : Type}.
Context {naming : SolverNaming ODESim EnergySystem}.

(** A caller that selects one name after the other and goes on after a
    selection that threw. *)
Definition select_all (names : list string)
    (this : DiffEqSolverSubject ODESim EnergySystem)
  : DiffEqSolverSubject ODESim EnergySystem :=
  foldl (fun this value => (setDiffEqSolver value this).2) this names.

(** The newest notification, when there is one, carries the name that
    [getDiffEqSolver] returns. *)
Definition last_event_is_current
    (this : DiffEqSolverSubject ODESim EnergySystem) : Prop :=
  match last (SolverSubject.notified_ this) with
  | Some e => ev_value e = getDiffEqSolver this
  | None => True
  end.

End SubjectRuns.

Definition with_isDragging (d : bool) (this : MagnetWheelSim)
  : MagnetWheelSim :=
  mkSim (varsList_ this) (wheel_ this) (magnetStrength_ this) (damping_ this)
    (initialEnergy_ this) (potentialOffset_ this) d
    (keyLeft_ this) (keyRight_ this) (keyForce_ this) (notified_ this).

(** The object handed to the drag handlers, as far as [startDrag] tells
    objects apart with [simObject == this.wheel_]: the wheel of this
    simulation, or anything else (another object, or null). *)
Inductive SimObjectRef : Type :=
| TheWheel
| NotTheWheel.

(** [startDrag(simObject, location, offset, dragBody, mouseEvent)]: the
    returned boolean and the simulation afterwards.  The body and the mouse
    event are not looked at. *)
Definition startDrag (simObject : SimObjectRef) (location offset : Vector)
    (this : MagnetWheelSim) : bool * MagnetWheelSim :=
  match simObject with
  | TheWheel => (true, with_isDragging true this)
  | NotTheWheel => (false, this)
  end.

(** [mouseDrag(simObject, location, offset, mouseEvent)] has an empty body. *)
Definition mouseDrag (simObject : SimObjectRef) (location offset : Vector)
    (this : MagnetWheelSim) : MagnetWheelSim :=
  this.

(** [finishDrag(simObject, location, offset)] *)
Definition finishDrag (simObject : SimObjectRef) (location offset : Vector)
    (this : MagnetWheelSim) : MagnetWheelSim :=
  with_isDragging false this.

Section SimRuns.

Context {wheelMethods : WheelMethods}.

(** The two [ParameterNumber]s that the constructor registers, in the order
    of the [addParameter] calls: the language-independent name, the getter
    and the setter bound to the simulation. *)
Record ParameterNumber : Type := mkParameterNumber {
  pn_name : string;
  pn_getter : MagnetWheelSim -> float;
  pn_setter : float -> MagnetWheelSim -> MagnetWheelSim
}.

Definition parameters : list ParameterNumber :=
  [mkParameterNumber en_DAMPING getDamping setDamping;
   mkParameterNumber en_MASS getMass setMass].

(** The calls a client can make on the simulation. *)
Inductive SimCall : Type :=
| CallEvaluate (vars change : JsArray) (timeStep : float)
| CallModifyObjects
| CallGetEnergyInfo
| CallSetPotentialEnergy (value : float)
| CallSetMass (value : float)
| CallSetDamping (value : float)
| CallHandleKeyEvent (keyCode : nat) (pressed : bool) (keyEvent : KeyEvent)
| CallStartDrag (simObject : SimObjectRef) (location offset : Vector)
| CallMouseDrag (simObject : SimObjectRef) (location offset : Vector)
| CallFinishDrag (simObject : SimObjectRef) (location offset : Vector).

(** The simulation after one call; a call that throws leaves the simulation
    as the throw found it. *)
Definition after_call (this : MagnetWheelSim) (c : SimCall) : MagnetWheelSim :=
  match c with
  | CallEvaluate vars change timeStep => (evaluate vars change timeStep this).2
  | CallModifyObjects => (modifyObjects this).2
  | CallGetEnergyInfo => (getEnergyInfo this).2
  | CallSetPotentialEnergy value => setPotentialEnergy value this
  | CallSetMass value => setMass value this
  | CallSetDamping value => setDamping value this
  | CallHandleKeyEvent keyCode pressed keyEvent =>
      handleKeyEvent keyCode pressed keyEvent this
  | CallStartDrag simObject location offset =>
      (startDrag simObject location offset this).2
  | CallMouseDrag simObject location offset =>
      mouseDrag simObject location offset this
  | CallFinishDrag simObject location offset =>
      finishDrag simObject location offset this
  end.

Definition after_calls (calls : list SimCall) (this : MagnetWheelSim)
  : MagnetWheelSim :=
  foldl after_call this calls.

(** The variables are the six slots set up by the constructor, with the
    energy slots marked computed. *)
Definition six_slots (this : MagnetWheelSim) : Prop :=
  var_name <$> varsList_ this
    = [en_ANGLE; en_ANGULAR_VELOCITY; en_TIME;
       en_KINETIC_ENERGY; en_POTENTIAL_ENERGY; en_TOTAL_ENERGY] /\
  isComputed_ <$> varsList_ this = [false; false; false; true; true; true].

End SimRuns.

(** A wheel like the sample wheel but without magnets. *)
Definition bare_sim : MagnetWheelSim :=
  with_wheel
    (mkWheel 1%float 1%float [] (Some 0%float) (Some 0%float))
    (@new_MagnetWheelSim Samples.sample_wheel).

End Operations.

(** ** [evaluate] over code that may throw *)

Module Fallible.

Import WheelSim.

(** What [evaluate] works on: the [change] array and the simulation. *)
Definition EvalState : Type := JsArray * MagnetWheelSim.

(** A computation that reads and writes that state and may throw; a throw
    keeps the state as it stood when the exception was raised. *)
Definition M (A : Type) : Type := EvalState -> completion A * EvalState.

Definition ret {A : Type} (a : A) : M A := fun st => (Normal a, st).

Definition bind {A B : Type} (m : M A) (k : A -> M B) : M B :=
  fun st =>
    match m st with
    | (Normal a, st') => k a st'
    | (Throw message, st') => (Throw message, st')
    end.

(** The outcome of a call into other code. *)
Definition call {A : Type} (c : completion A) : M A := fun st => (c, st).

Definition get_change : M JsArray := fun st => (Normal st.1, st).

Definition put_change (change : JsArray) : M unit :=
  fun st => (Normal tt, (change, st.2)).

Definition get_this : M MagnetWheelSim := fun st => (Normal st.2, st).

Definition put_this (this : MagnetWheelSim) : M unit :=
  fun st => (Normal tt, (st.1, this)).

Notation "x <- m ;; k" := (bind m (fun x => k))
  (at level 100, m at next level, right associativity).
Notation "m ;;; k" := (bind m (fun _ => k))
  (at level 100, right associativity).

(** A [for] loop over an array, stopped by the first throw. *)
Fixpoint for_each {A : Type} (l : list A) (body : A -> M unit) : M unit :=
  match l with
  | [] => ret tt
  | a :: l => body a ;;; for_each l body
  end.

(** The functions of other files that [evaluate] calls, none of them under
    src: [Util.zeroArray], the methods of [MagnetWheel] and those of
    [Vector].  Each may return or throw; nothing else is assumed of them. *)
Class CalledCode : Type := {
  Util_zeroArray : JsArray -> completion JsArray;
  wheel_getMass : MagnetWheel -> completion float;
  wheel_getRadius : MagnetWheel -> completion float;
  wheel_getMagnets : MagnetWheel -> completion (list Vector);
  wheel_setAngle : option float -> MagnetWheel -> completion MagnetWheel;
  wheel_setAngularVelocity :
    option float -> MagnetWheel -> completion MagnetWheel;
  wheel_bodyToWorld : MagnetWheel -> Vector -> completion Vector;
  new_Vector : float -> float -> completion Vector;
  vector_getX : Vector -> completion float;
  vector_getY : Vector -> completion float;
  vector_multiply : Vector -> float -> completion Vector;
  vector_lengthSquared : Vector -> completion float
}.

Section Evaluate.

Context {called : CalledCode}.

(** [moveObjects(vars)] *)
Definition moveObjectsF (vars : JsArray) : M unit :=
  this <- get_this ;;
  wheel <- call (wheel_setAngle (aget vars 0) (wheel_ this)) ;;
  put_this (with_wheel wheel this) ;;;
  this <- get_this ;;
  wheel <- call (wheel_setAngularVelocity (aget vars 1) (wheel_ this)) ;;
  put_this (with_wheel wheel this).

(** One turn of the loop over the magnets. *)
Definition magnet_stepF (m xf yf : float) (magnet : Vector) : M unit :=
  this <- get_this ;;
  c <- call (wheel_bodyToWorld (wheel_ this) magnet) ;;
  x <- call (vector_getX c) ;;
  y <- call (vector_getY c) ;;
  f <- call (new_Vector (xf - x)%float (yf - y)%float) ;;
  l2 <- call (vector_lengthSquared f) ;;
  f2 <- call (vector_multiply f (magnetStrength_ this / l2)%float) ;;
  f2x <- call (vector_getX f2) ;;
  cy <- call (vector_getY c) ;;
  f2y <- call (vector_getY f2) ;;
  cx <- call (vector_getX c) ;;
  let t := (f2x * cy - f2y * cx)%float in
  let t := (- t)%float in
  change <- get_change ;;
  put_change (aset 1 (Some (toNumber (aget change 1) + t / m)%float) change).

(** [evaluate(vars, change, timeStep)], with [change] and the simulation in
    the state: the outcome is a returned value ([None] for [null], [Some] for
    an error object) or an exception raised by the code it calls. *)
Definition evaluateF (vars : JsArray) (timeStep : float)
  : M (option Object) :=
  change <- get_change ;;
  change <- call (Util_zeroArray change) ;;
  put_change change ;;;
  this <- get_this ;;
  m <- call (wheel_getMass (wheel_ this)) ;;
  change <- get_change ;;
  put_change (aset 0 (aget vars 1) change) ;;;
  change <- get_change ;;
  put_change
    (aset 1 (Some (- damping_ this * toNumber (aget vars 1) / m)%float)
       change) ;;;
  change <- get_change ;;
  put_change (aset 2 (Some 1%float) change) ;;;
  moveObjectsF vars ;;;
  let xf := 0%float in
  this <- get_this ;;
  radius <- call (wheel_getRadius (wheel_ this)) ;;
  let yf := (radius * 0.9)%float in
  magnets <- call (wheel_getMagnets (wheel_ this)) ;;
  for_each magnets (magnet_stepF m xf yf) ;;;
  this <- get_this ;;
  change <- get_change ;;
  (if keyLeft_ this
   then put_change
          (aset 1 (Some (toNumber (aget change 1) + keyForce_ this)%float)
             change)
   else if keyRight_ this
   then put_change
          (aset 1 (Some (toNumber (aget change 1) + - keyForce_ this)%float)
             change)
   else ret tt) ;;;
  ret None.

End Evaluate.

(** A computation whose outcome is never a returned object: it returns
    [null] or it throws. *)
Definition null_or_throw {A : Type} (m : M (option A)) : Prop :=
  forall st,
    (m st).1 = Normal None \/ exists message, (m st).1 = Throw message.

(** The called code of the model above: nothing throws, [Util.zeroArray],
    [Vector] and the accessors of the wheel are as in [WheelSim], and the
    wheel's geometry is what the given [WheelMethods] say. *)
Definition quiet_code (wheelMethods : WheelMethods) : CalledCode :=
  {| Util_zeroArray := fun a => Normal (zeroArray a);
     wheel_getMass := fun w => Normal (mass_ w);
     wheel_getRadius := fun w => Normal (radius_ w);
     wheel_getMagnets := fun w => Normal (magnets_ w);
     wheel_setAngle := fun a w => Normal (Wheel_setAngle a w);
     wheel_setAngularVelocity :=
       fun v w => Normal (Wheel_setAngularVelocity v w);
     wheel_bodyToWorld := fun w p => Normal (bodyToWorld w p);
     new_Vector := fun x y => Normal (mkVector x y);
     vector_getX := fun v => Normal (getX v);
     vector_getY := fun v => Normal (getY v);
     vector_multiply := fun v k => Normal (Vector_multiply v k);
     vector_lengthSquared := fun v => Normal (Vector_lengthSquared v) |}.

(** A [Vector] whose constructor refuses NaN by throwing. *)
Definition checked_Vector (x y : float) : completion Vector :=
  if PrimFloat.is_nan x || PrimFloat.is_nan y
  then Throw "not a number"
  else Normal (mkVector x y).

(** The same called code, except that every [Vector] is made by the
    constructor that refuses NaN. *)
Definition strict_code (wheelMethods : WheelMethods) : CalledCode :=
  {| Util_zeroArray := fun a => Normal (zeroArray a);
     wheel_getMass := fun w => Normal (mass_ w);
     wheel_getRadius := fun w => Normal (radius_ w);
     wheel_getMagnets := fun w => Normal (magnets_ w);
     wheel_setAngle := fun a w => Normal (Wheel_setAngle a w);
     wheel_setAngularVelocity :=
       fun v w => Normal (Wheel_setAngularVelocity v w);
     wheel_bodyToWorld := fun w p => Normal (bodyToWorld w p);
     new_Vector := checked_Vector;
     vector_getX := fun v => Normal (getX v);
     vector_getY := fun v => Normal (getY v);
     vector_multiply :=
       fun v k => checked_Vector (k * getX v)%float (k * getY v)%float;
     vector_lengthSquared := fun v => Normal (Vector_lengthSquared v) |}.

End Fallible.

(** ** Properties of DiffEqSolverSubject *)

Module SubjectFacts.

Import SolverSubject Samples.

Section Facts.

Context {ODESim EnergySystem : Type}.
Context {naming : SolverNaming ODESim EnergySystem}.

Implicit Types (this : DiffEqSolverSubject ODESim EnergySystem).
Implicit Types (s solver : DiffEqSolver ODESim EnergySystem).
Implicit Types (value : string).

Lemma find_existsb {A : Type} (f : A -> bool) (l : list A) :
  existsb f l = match List.find f l with Some _ => true | None => false end.
Proof.
  induction l as [|a l IH]; simpl; [reflexivity|].
  destruct (f a); simpl; [reflexivity | exact IH].
Qed.

Lemma find_none_iff {A : Type} (f : A -> bool) (l : list A) :
  List.find f l = None <-> forall a, a ∈ l -> f a = false.
Proof.
  induction l as [|a l IH]; simpl.
  - split; [intros _ b Hb; inversion Hb | reflexivity].
  - destruct (f a) eqn:Ha.
    + split; [discriminate|].
      intros H. rewrite (H a) in Ha; [discriminate | left].
    + rewrite IH. split.
      * intros H b Hb. apply elem_of_cons in Hb as [->|Hb]; auto.
      * intros H b Hb. apply H. now right.
Qed.

Lemma find_some_holds {A : Type} (f : A -> bool) (l : list A) (a : A) :
  List.find f l = Some a -> f a = true.
Proof.
  induction l as [|b l IH]; simpl; [discriminate|].
  destruct (f b) eqn:Hb; [|exact IH].
  intros [= <-]. exact Hb.
Qed.

(** The three paths through [setDiffEqSolver]. *)
Lemma setDiffEqSolver_same value this :
  nameEquals (odeSolver_ (advanceStrategy_ this)) value = true ->
  setDiffEqSolver value this = (Normal tt, this).
Proof.
  intros H. unfold setDiffEqSolver, ODEAdvance_getDiffEqSolver.
  now rewrite H.
Qed.

Lemma setDiffEqSolver_found value this solver :
  nameEquals (odeSolver_ (advanceStrategy_ this)) value = false ->
  List.find (fun s => nameEquals s value) (solvers_ this) = Some solver ->
  setDiffEqSolver value this =
    (Normal tt,
     broadcastParameter en_DIFF_EQ_SOLVER
       (with_advanceStrategy (mkAdvance solver) this)).
Proof.
  intros H Hf.
  unfold setDiffEqSolver, ODEAdvance_getDiffEqSolver, goog_array_find.
  now rewrite H, Hf.
Qed.

Lemma setDiffEqSolver_unknown value this :
  nameEquals (odeSolver_ (advanceStrategy_ this)) value = false ->
  List.find (fun s => nameEquals s value) (solvers_ this) = None ->
  setDiffEqSolver value this = (Throw ("unknown solver: " +:+ value), this).
Proof.
  intros H Hf.
  unfold setDiffEqSolver, ODEAdvance_getDiffEqSolver, goog_array_find.
  now rewrite H, Hf.
Qed.

(** C1, as amended: [setDiffEqSolver] returns [undefined] exactly when the
    name is that of the active solver or of a registered solver; for every
    other name it throws an [Error] whose message is ['unknown solver: ']
    followed by the name.  It never returns an error value. *)
Theorem setDiffEqSolver_returns_or_throws value this :
  fst (setDiffEqSolver value this) =
    if nameEquals (odeSolver_ (advanceStrategy_ this)) value
       || existsb (fun s => nameEquals s value) (solvers_ this)
    then Normal tt
    else Throw ("unknown solver: " +:+ value).
Proof.
  destruct (nameEquals (odeSolver_ (advanceStrategy_ this)) value) eqn:Hc.
  - now rewrite setDiffEqSolver_same.
  - rewrite find_existsb. simpl.
    destruct (List.find _ (solvers_ this)) as [solver|] eqn:Hf.
    + now rewrite (setDiffEqSolver_found _ _ solver).
    + now rewrite setDiffEqSolver_unknown.
Qed.

(** C2: when every solver answers to its own language-independent name and a
    solver answering to such a name carries it, selecting the name of a
    registered solver succeeds and [getDiffEqSolver] then returns that
    name. *)
Theorem select_registered_then_current this s :
  (forall s0, nameEquals s0 (getName s0 false) = true) ->
  (forall c s0, nameEquals c (getName s0 false) = true ->
                getName c false = getName s0 false) ->
  s ∈ solvers_ this ->
  fst (setDiffEqSolver (getName s false) this) = Normal tt /\
  getDiffEqSolver (snd (setDiffEqSolver (getName s false) this))
    = getName s false.
Proof.
  intros Hown Hsame Hin.
  destruct (nameEquals (odeSolver_ (advanceStrategy_ this)) (getName s false))
    eqn:Hc.
  - rewrite setDiffEqSolver_same by exact Hc. split; [reflexivity|].
    simpl. unfold getDiffEqSolver, ODEAdvance_getDiffEqSolver.
    now apply Hsame.
  - destruct (List.find (fun s' => nameEquals s' (getName s false))
                (solvers_ this)) as [solver|] eqn:Hf.
    + rewrite (setDiffEqSolver_found _ _ solver) by assumption.
      split; [reflexivity|]. simpl.
      apply Hsame. exact (find_some_holds _ _ _ Hf).
    + exfalso. rewrite find_none_iff in Hf.
      specialize (Hf s Hin). simpl in Hf. rewrite Hown in Hf. discriminate.
Qed.

(** C3: for a name that no registered solver answers to, the call leaves the
    subject as it was: the advance strategy keeps its solver,
    [getDiffEqSolver] returns what it returned before, and unless the name is
    that of the active solver the call fails. *)
Theorem unknown_name_keeps_current value this :
  (forall s, s ∈ solvers_ this -> nameEquals s value = false) ->
  snd (setDiffEqSolver value this) = this /\
  advanceStrategy_ (snd (setDiffEqSolver value this)) = advanceStrategy_ this /\
  getDiffEqSolver (snd (setDiffEqSolver value this)) = getDiffEqSolver this /\
  (nameEquals (odeSolver_ (advanceStrategy_ this)) value = false ->
   fst (setDiffEqSolver value this) = Throw ("unknown solver: " +:+ value)).
Proof.
  intros Hnone. apply find_none_iff in Hnone.
  destruct (nameEquals (odeSolver_ (advanceStrategy_ this)) value) eqn:Hc.
  - rewrite setDiffEqSolver_same by exact Hc. simpl.
    repeat split; try reflexivity. discriminate.
  - rewrite setDiffEqSolver_unknown by assumption. simpl.
    repeat split; reflexivity.
Qed.

(** C4, as amended: a call emits exactly one notification of the
    [DIFF_EQ_SOLVER] Parameter, carrying the name of the solver now active,
    when it succeeds for a name other than that of the solver already
    active; a successful call naming the active solver and a failed call
    emit none. *)
Theorem setDiffEqSolver_notifications value this :
  SolverSubject.notified_ (snd (setDiffEqSolver value this)) =
    SolverSubject.notified_ this ++
    (if returns (fst (setDiffEqSolver value this))
        && negb (nameEquals (odeSolver_ (advanceStrategy_ this)) value)
     then [mkEvent en_DIFF_EQ_SOLVER
             (getDiffEqSolver (snd (setDiffEqSolver value this)))]
     else []).
Proof.
  destruct (nameEquals (odeSolver_ (advanceStrategy_ this)) value) eqn:Hc.
  - rewrite setDiffEqSolver_same by exact Hc. simpl.
    now rewrite app_nil_r.
  - destruct (List.find (fun s => nameEquals s value) (solvers_ this))
      as [solver|] eqn:Hf.
    + rewrite (setDiffEqSolver_found _ _ solver) by assumption. reflexivity.
    + rewrite setDiffEqSolver_unknown by assumption. simpl.
      now rewrite app_nil_r.
Qed.

(** C7: without an energy system the registry is the three fixed-step
    solvers; with one it is those three followed by the adaptive solver over
    Modified Euler and the adaptive solver over Runge-Kutta; so the registry
    holds an adaptive solver exactly when an energy system was given. *)
Theorem registry_of_constructor (sim : ODESim) (es : option EnergySystem)
    (adv : ODEAdvance ODESim EnergySystem) (opt_name : option string) :
  solvers_ (new_DiffEqSolverSubject sim None adv opt_name)
    = [EulersMethod sim; ModifiedEuler sim; RungeKutta sim] /\
  (forall e : EnergySystem,
     solvers_ (new_DiffEqSolverSubject sim (Some e) adv opt_name)
       = [EulersMethod sim; ModifiedEuler sim; RungeKutta sim;
          AdaptiveStepSolver sim e (ModifiedEuler sim);
          AdaptiveStepSolver sim e (RungeKutta sim)]) /\
  existsb isAdaptive (solvers_ (new_DiffEqSolverSubject sim es adv opt_name))
    = match es with Some _ => true | None => false end.
Proof.
  split; [reflexivity|]. split; [reflexivity|].
  destruct es; reflexivity.
Qed.

End Facts.

End SubjectFacts.

(** ** Properties of MagnetWheelSim *)

Module WheelFacts.

Import WheelSim Samples Props.

(** *** Arrays *)

Lemma aget_aset_ne (a : JsArray) (i j : nat) (v : option float) :
  i ≠ j -> aget (aset j v a) i = aget a i.
Proof.
  intros Hij. unfold aget, aset. case_decide as Hj.
  - now rewrite list_lookup_insert_ne.
  - destruct (decide (i < length a)) as [Hi|Hi].
    + now rewrite lookup_app_l.
    + rewrite lookup_app_r by lia.
      rewrite (lookup_ge_None_2 a i) by lia.
      destruct (decide (i < j)) as [Hlt|Hge].
      * rewrite lookup_app_l by (rewrite length_replicate; lia).
        now rewrite lookup_replicate_2 by lia.
      * rewrite lookup_ge_None_2; [reflexivity|].
        rewrite length_app, length_replicate. simpl. lia.
Qed.

Lemma aget_aset_eq (a : JsArray) (i : nat) (v : option float) :
  aget (aset i v a) i = v.
Proof.
  unfold aget, aset. case_decide as Hi.
  - now rewrite list_lookup_insert_eq.
  - rewrite lookup_app_r by lia.
    rewrite lookup_app_r by (rewrite length_replicate; lia).
    rewrite length_replicate, Nat.sub_diag. reflexivity.
Qed.

Lemma aget_zeroArray (a : JsArray) (i : nat) :
  i < length a -> aget (zeroArray a) i = Some 0%float.
Proof.
  intros Hi. unfold aget, zeroArray. rewrite list_lookup_fmap.
  destruct (lookup_lt_is_Some_2 a i Hi) as [x ->]. reflexivity.
Qed.

Section Facts.

Context {wheelMethods : WheelMethods}.

Implicit Types (this : MagnetWheelSim) (vars change : JsArray).

(** The loop over the magnets writes slot 1 only. *)
Lemma magnets_loop_frame this (m xf yf : float) (magnets : list Vector)
    change (i : nat) :
  i ≠ 1 ->
  aget (foldl (magnet_step this m xf yf) change magnets) i = aget change i.
Proof.
  intros Hi. revert change.
  induction magnets as [|magnet magnets IH]; intros change; simpl.
  - reflexivity.
  - rewrite IH. unfold magnet_step. now apply aget_aset_ne.
Qed.

(** [evaluate] zeroes [change] and then writes slots 0, 1 and 2 only. *)
Lemma evaluate_frame vars change (t : float) this (i : nat) :
  3 <= i ->
  aget (evaluate vars change t this).1.2 i = aget (zeroArray change) i.
Proof.
  intros Hi. unfold evaluate. cbn [fst snd].
  assert (Hkeys : forall c (x : float),
            aget (aset 1 (Some x) c) i = aget c i)
    by (intros; apply aget_aset_ne; lia).
  destruct (keyLeft_ (moveObjects vars this));
    [|destruct (keyRight_ (moveObjects vars this))];
    rewrite ?Hkeys, magnets_loop_frame by lia;
    rewrite !aget_aset_ne by lia; reflexivity.
Qed.

(** *** Division by zero in the torque *)

Lemma nan_of_spec (x : float) : Prim2SF x = S754_nan -> x = nan.
Proof.
  intros H. rewrite <- (SF2Prim_Prim2SF x), H. reflexivity.
Qed.

Lemma SFeqb_zero_r (a : spec_float) :
  SFeqb a (S754_zero false) = true -> sf_is_zero a = true.
Proof.
  destruct a as [s|s| |s m e]; simpl; try reflexivity; try discriminate.
  all: destruct s; discriminate.
Qed.

Lemma SFeqb_finite_eq (s1 : bool) (m1 : positive) (e1 : Z)
    (s2 : bool) (m2 : positive) (e2 : Z) :
  SFeqb (S754_finite s1 m1 e1) (S754_finite s2 m2 e2) = true ->
  s1 = s2 /\ m1 = m2 /\ e1 = e2.
Proof.
  unfold SFeqb, SFcompare.
  destruct s1, s2; try discriminate;
    destruct (Z.compare e1 e2) eqn:He; try discriminate;
    destruct (Pos.compare_cont Eq m1 m2) eqn:Hm; try discriminate;
    intros _; apply Z.compare_eq in He; apply Pos.compare_eq in Hm; auto.
Qed.

(** The difference of two equal numbers is a zero, or NaN for infinities. *)
Lemma SFsub_of_equal (a b : spec_float) :
  SFeqb a b = true -> sf_zero_or_nan (SF64sub b a) = true.
Proof.
  destruct a as [sa|sa| |sa ma ea], b as [sb|sb| |sb mb eb];
    try (destruct sa; discriminate); try (destruct sb; discriminate);
    try discriminate.
  - intros _. now destruct sa, sb.
  - destruct sa, sb; try discriminate; reflexivity.
  - intros H. apply SFeqb_finite_eq in H as (-> & -> & ->).
    unfold SF64sub, SFsub. rewrite Z.sub_diag. reflexivity.
Qed.

Lemma SFsub_zero_zero (a : spec_float) :
  sf_is_zero a = true -> sf_is_zero (SF64sub (S754_zero false) a) = true.
Proof. destruct a as [s|s| |s m e]; try discriminate. now destruct s. Qed.

Lemma SF_sum_of_squares (fx fy : spec_float) :
  sf_is_zero fx = true -> sf_zero_or_nan fy = true ->
  sf_zero_or_nan (SF64add (SF64mul fx fx) (SF64mul fy fy)) = true.
Proof.
  destruct fx as [sx|sx| |sx mx ex]; try discriminate.
  destruct fy as [sy|sy| |sy my ey]; try discriminate; intros _ _.
  - now destruct sx, sy.
  - reflexivity.
Qed.

Lemma SFdiv_by_zero_or_nan (a l : spec_float) :
  sf_zero_or_nan l = true -> sf_inf_or_nan (SF64div a l) = true.
Proof.
  destruct l as [sl|sl| |sl ml el]; try discriminate; intros _;
    now destruct a.
Qed.

Lemma SFmul_inf_or_nan_zero (a x : spec_float) :
  sf_inf_or_nan a = true -> sf_is_zero x = true -> SF64mul a x = S754_nan.
Proof.
  destruct a as [sa|sa| |sa ma ea]; try discriminate;
    destruct x as [sx|sx| |sx mx ex]; try discriminate; reflexivity.
Qed.

Lemma SFadd_nan_r (a : spec_float) : SF64add a S754_nan = S754_nan.
Proof. now destruct a. Qed.

Lemma add_nan_l (x : float) : (nan + x)%float = nan.
Proof. apply nan_of_spec. now rewrite FloatAxioms.add_spec. Qed.

(** The torque of a magnet that sits on the fixed point is NaN, and so is
    the sum it is added to. *)
Lemma torque_at_fixed_point (strength cx cy yf m acc : float) :
  PrimFloat.eqb cx 0 = true ->
  PrimFloat.eqb cy yf = true ->
  (acc +
   - (strength / ((0 - cx) * (0 - cx) + (yf - cy) * (yf - cy)) * (0 - cx) * cy
      - strength / ((0 - cx) * (0 - cx) + (yf - cy) * (yf - cy)) * (yf - cy)
        * cx) / m)%float = nan.
Proof.
  rewrite !FloatAxioms.eqb_spec. intros Hx Hy.
  apply SFeqb_zero_r, SFsub_zero_zero in Hx. apply SFsub_of_equal in Hy.
  apply nan_of_spec.
  rewrite FloatAxioms.add_spec, FloatAxioms.div_spec, FloatAxioms.opp_spec,
    FloatAxioms.sub_spec, !FloatAxioms.mul_spec, !FloatAxioms.div_spec,
    !FloatAxioms.add_spec, !FloatAxioms.mul_spec, !FloatAxioms.sub_spec.
  change (Prim2SF 0) with (S754_zero false).
  pose proof (SFdiv_by_zero_or_nan (Prim2SF strength) _
                (SF_sum_of_squares _ _ Hx Hy)) as Hf.
  rewrite (SFmul_inf_or_nan_zero _ _ Hf Hx).
  apply SFadd_nan_r.
Qed.

(** A magnet on the fixed point turns slot 1 into NaN, and NaN stays. *)
Lemma magnet_step_at_fixed_point this (m yf : float) change
    (magnet : Vector) :
  PrimFloat.eqb (getX (bodyToWorld (wheel_ this) magnet)) 0
  && PrimFloat.eqb (getY (bodyToWorld (wheel_ this) magnet)) yf = true ->
  aget (magnet_step this m 0 yf change magnet) 1 = Some nan.
Proof.
  intros [Hx Hy]%andb_true_iff.
  unfold magnet_step. rewrite aget_aset_eq. f_equal.
  exact (torque_at_fixed_point (magnetStrength_ this) _ _ yf m _ Hx Hy).
Qed.

Lemma magnet_step_keeps_nan this (m xf yf : float) change (magnet : Vector) :
  aget change 1 = Some nan ->
  aget (magnet_step this m xf yf change magnet) 1 = Some nan.
Proof.
  intros H. unfold magnet_step. rewrite aget_aset_eq, H. f_equal.
  apply add_nan_l.
Qed.

Lemma magnets_loop_keeps_nan this (m xf yf : float)
    (magnets : list Vector) change :
  aget change 1 = Some nan ->
  aget (foldl (magnet_step this m xf yf) change magnets) 1 = Some nan.
Proof.
  revert change.
  induction magnets as [|magnet magnets IH]; intros change H; simpl.
  - exact H.
  - apply IH. now apply magnet_step_keeps_nan.
Qed.

Lemma magnets_loop_at_fixed_point this (m yf : float)
    (magnets : list Vector) change :
  existsb
    (fun magnet =>
       PrimFloat.eqb (getX (bodyToWorld (wheel_ this) magnet)) 0
       && PrimFloat.eqb (getY (bodyToWorld (wheel_ this) magnet)) yf)
    magnets = true ->
  aget (foldl (magnet_step this m 0 yf) change magnets) 1 = Some nan.
Proof.
  revert change.
  induction magnets as [|magnet magnets IH]; intros change; simpl.
  - discriminate.
  - intros [H|H]%orb_true_iff.
    + apply magnets_loop_keeps_nan.
      now apply magnet_step_at_fixed_point.
    + now apply IH.
Qed.

(** When none of the functions it calls throws, [evaluate] returns [null]
    for every state, every [change] array and every setting of the keys.
    That includes the states in which a magnet sits on the fixed magnet
    point, where a [Vector] that accepts NaN makes the derivative of the
    angular velocity, slot 1 of [change], come out as NaN. *)
Theorem evaluate_returns_null vars change (t : float) this :
  (evaluate vars change t this).1.1 = None /\
  (magnet_at_fixed_point vars this = true ->
   aget (evaluate vars change t this).1.2 1 = Some nan).
Proof.
  split; [reflexivity|].
  unfold magnet_at_fixed_point, evaluate. cbn [fst snd]. intros H.
  eapply magnets_loop_at_fixed_point in H.
  destruct (keyLeft_ (moveObjects vars this));
    [|destruct (keyRight_ (moveObjects vars this))];
    rewrite ?aget_aset_eq, H; [| |reflexivity];
    f_equal; apply add_nan_l.
Qed.

(** C6: after [evaluate] every slot of [change] from index 3 on holds what
    zeroing left there; in particular the slots 3, 4 and 5 of the energies,
    marked computed by the constructor, are zero whenever [change] has
    them. *)
Theorem evaluate_computed_slots_zero vars change (t : float) this (i : nat) :
  3 <= i ->
  aget (evaluate vars change t this).1.2 i = aget (zeroArray change) i /\
  (i < length change ->
   aget (evaluate vars change t this).1.2 i = Some 0%float).
Proof.
  intros Hi. split.
  - now apply evaluate_frame.
  - intros Hlen. rewrite evaluate_frame by exact Hi.
    now apply aget_zeroArray.
Qed.

(** The slots marked computed by the constructor are 3, 4 and 5. *)
Lemma computed_slots_of_constructor :
  isComputed_ <$> varsList_ new_MagnetWheelSim
    = [false; false; false; true; true; true].
Proof. reflexivity. Qed.

(** *** Change-sequence counters *)

Lemma elem_of_345 (i : nat) : i ∈ [3; 4; 5] <-> i = 3 \/ i = 4 \/ i = 5.
Proof.
  rewrite !elem_of_cons, elem_of_nil. tauto.
Qed.

Lemma seq_incrSequence_345 (va : VarsList) :
  seq_ <$> incrSequence [3; 4; 5] va = bumped [3; 4; 5] (seq_ <$> va).
Proof.
  apply list_eq. intros i. unfold incrSequence, bumped. simpl.
  rewrite list_lookup_imap, !list_lookup_fmap, !list_lookup_alter.
  repeat case_decide; subst; try lia;
    case_bool_decide as Hm; rewrite elem_of_345 in Hm; try lia;
    match goal with |- context [va !! ?k] => destruct (va !! k) end;
    reflexivity.
Qed.

Lemma value_incrSequence (indexes : list nat) (va : VarsList) :
  value_ <$> incrSequence indexes va = value_ <$> va.
Proof.
  unfold incrSequence. revert va.
  induction indexes as [|i indexes IH]; intros va; simpl; [reflexivity|].
  rewrite IH. apply list_eq. intros j.
  rewrite !list_lookup_fmap, list_lookup_alter.
  case_decide; [subst|reflexivity].
  now destruct (va !! j).
Qed.

(** C8: [setMass] increments the change-sequence counters of the slots 3, 4
    and 5 and of no other slot, leaves every slot value as it was, stores the
    mass, and emits one notification of the [MASS] Parameter, which carries
    the new mass. *)
Theorem setMass_bumps_energy_slots (value : float) this :
  seq_ <$> varsList_ (setMass value this)
    = bumped [3; 4; 5] (seq_ <$> varsList_ this) /\
  value_ <$> varsList_ (setMass value this) = value_ <$> varsList_ this /\
  getMass (setMass value this) = value /\
  notified_ (setMass value this)
    = notified_ this ++ [mkEvent en_MASS value].
Proof.
  split; [exact (seq_incrSequence_345 (varsList_ this))|].
  split; [exact (value_incrSequence [3; 4; 5] (varsList_ this))|].
  split; reflexivity.
Qed.

Lemma seq_write_continuous (vars : JsArray) (va : VarsList) :
  length vars = length va ->
  seq_ <$> zip_with (fun x v => Variable_write true (toNumber x) v) vars va
    = seq_ <$> va.
Proof.
  revert va. induction vars as [|x vars IH]; intros [|v va] Hlen;
    simpl in *; try discriminate; [reflexivity|].
  f_equal. apply IH. lia.
Qed.

(** A continuous write of all slots leaves the counters alone. *)
Lemma seq_setValues_continuous (vars : JsArray) (va : VarsList) :
  seq_ <$> (setValues vars true va).2 = seq_ <$> va.
Proof.
  unfold setValues. case_decide as Hlen; simpl; [|reflexivity].
  now apply seq_write_continuous.
Qed.

(** [modifyObjects] leaves the change-sequence counter of every slot as it
    was. *)
Lemma modifyObjects_seq_kept this :
  seq_ <$> varsList_ (modifyObjects this).2 = seq_ <$> varsList_ this.
Proof.
  unfold modifyObjects. cbn [evaluate].
  match goal with
  | |- context [setValues ?vars true ?va] =>
      pose proof (seq_setValues_continuous vars va) as H;
      destruct (setValues vars true va) as [r va']
  end.
  exact H.
Qed.

(** On a simulation with its six slots [modifyObjects] succeeds and rewrites
    the energy slots from the [EnergyInfo]. *)
Lemma modifyObjects_values this (a w time ke pe te : ConcreteVariable) :
  varsList_ this = [a; w; time; ke; pe; te] ->
  (modifyObjects this).1 = Normal tt /\
  value_ <$> varsList_ (modifyObjects this).2
    = [value_ a; value_ w; value_ time;
       getTranslational (getEnergyInfo this).1;
       getPotential (getEnergyInfo this).1;
       getTotalEnergy (getEnergyInfo this).1].
Proof.
  intros Hva. unfold modifyObjects, getEnergyInfo. rewrite Hva.
  split; reflexivity.
Qed.

(** *** Energy *)

Lemma SFeqb_finite_refl (s : bool) (m : positive) (e : Z) :
  SFeqb (S754_finite s m e) (S754_finite s m e) = true.
Proof.
  unfold SFeqb, SFcompare.
  rewrite Z.compare_refl.
  change (Pos.compare_cont Eq m m) with (Pos.compare m m).
  rewrite Pos.compare_refl. now destruct s.
Qed.

(** Adding a number to zero gives the same number (the sum of [+0] and [-0]
    is [+0], which is equal to [-0] as a number). *)
Lemma same_number_zero_plus (x : float) : same_number (0 + x) x = true.
Proof.
  unfold same_number, PrimFloat.is_nan.
  rewrite !FloatAxioms.eqb_spec, FloatAxioms.add_spec.
  change (Prim2SF 0) with (S754_zero false).
  destruct (Prim2SF x) as [s|s| |s m e]; simpl.
  - now destruct s.
  - now destruct s.
  - reflexivity.
  - now rewrite SFeqb_finite_refl.
Qed.

(** [moveObjects] reads the variables only, and [getEnergyInfo] the wheel
    that [moveObjects] has just placed: the offset plays no part. *)
Lemma getEnergyInfo_offset (p : float) this :
  (getEnergyInfo (with_potentialOffset p this)).1 = (getEnergyInfo this).1.
Proof. reflexivity. Qed.

Lemma let_pair {A B C : Type} (p : A * B) (f : A -> B -> C) :
  (let '(a, b) := p in f a b) = f p.1 p.2.
Proof. now destruct p. Qed.

(** [modifyObjects] is one continuous write of [written_vars]. *)
Lemma modifyObjects_unfold this :
  modifyObjects this =
    ((setValues (written_vars this) true (varsList_ this)).1,
     with_varsList (setValues (written_vars this) true (varsList_ this)).2
       (moveObjects (getValues (varsList_ this)) this)).
Proof.
  unfold modifyObjects. cbn [evaluate].
  etransitivity; [apply let_pair|reflexivity].
Qed.

(** C10: the reported potential energy is 0 and the reported total energy is
    0 plus the kinetic energy of the wheel, which is the same number as the
    kinetic energy; [setPotentialEnergy] changes neither the [EnergyInfo]
    reported afterwards nor the variables that [modifyObjects] writes
    afterwards. *)
Theorem energy_report_ignores_offset (value : float) this :
  getPotential (getEnergyInfo this).1 = 0%float /\
  getTranslational (getEnergyInfo this).1
    = getKineticEnergy (wheel_ (getEnergyInfo this).2) /\
  getTotalEnergy (getEnergyInfo this).1
    = (0 + getTranslational (getEnergyInfo this).1)%float /\
  same_number (getTotalEnergy (getEnergyInfo this).1)
              (getTranslational (getEnergyInfo this).1) = true /\
  (getEnergyInfo (setPotentialEnergy value this)).1 = (getEnergyInfo this).1 /\
  varsList_ (modifyObjects (setPotentialEnergy value this)).2
    = varsList_ (modifyObjects this).2.
Proof.
  split; [reflexivity|]. split; [reflexivity|].
  assert (Htot : getTotalEnergy (getEnergyInfo this).1
                 = (0 + getTranslational (getEnergyInfo this).1)%float)
    by reflexivity.
  split; [exact Htot|].
  split; [rewrite Htot; apply same_number_zero_plus|].
  split; [reflexivity|].
  rewrite !modifyObjects_unfold. reflexivity.
Qed.

End Facts.

End WheelFacts.

(** ** The theorems at concrete inputs *)

Module Examples.

Import SolverSubject WheelSim Samples Props SubjectFacts WheelFacts.

(** C1 as stated fails: for the name ["bogus"], which no solver of the
    sample subject answers to, [setDiffEqSolver] does not return; it throws
    an [Error]. *)
Lemma setDiffEqSolver_bogus_throws :
  returns (fst (setDiffEqSolver "bogus" sample_subject)) = false /\
  fst (setDiffEqSolver "bogus" sample_subject)
    = Throw "unknown solver: bogus".
Proof. split; reflexivity. Qed.

(** Selecting the adaptive Runge-Kutta solver of the sample subject. *)
Lemma select_registered_then_current_witness :
  AdaptiveStepSolver tt tt (RungeKutta tt) ∈ solvers_ sample_subject /\
  fst (setDiffEqSolver "ADAPTIVE_RUNGE_KUTTA" sample_subject) = Normal tt /\
  getDiffEqSolver (snd (setDiffEqSolver "ADAPTIVE_RUNGE_KUTTA" sample_subject))
    = "ADAPTIVE_RUNGE_KUTTA".
Proof.
  assert (Hin : AdaptiveStepSolver tt tt (RungeKutta tt)
                  ∈ solvers_ sample_subject)
    by (apply (list_elem_of_lookup_2 _ 4); reflexivity).
  split; [exact Hin|].
  apply (select_registered_then_current (naming := sample_naming)
           sample_subject (AdaptiveStepSolver tt tt (RungeKutta tt))).
  - intros s0. apply String.eqb_refl.
  - intros c s0 H. apply String.eqb_eq. exact H.
  - exact Hin.
Defined.

(** The name ["bogus"] on the sample subject. *)
Lemma unknown_name_keeps_current_witness :
  (forall s, s ∈ solvers_ sample_subject -> nameEquals s "bogus" = false) /\
  snd (setDiffEqSolver "bogus" sample_subject) = sample_subject /\
  advanceStrategy_ (snd (setDiffEqSolver "bogus" sample_subject))
    = advanceStrategy_ sample_subject /\
  getDiffEqSolver (snd (setDiffEqSolver "bogus" sample_subject))
    = getDiffEqSolver sample_subject /\
  (nameEquals (odeSolver_ (advanceStrategy_ sample_subject)) "bogus" = false ->
   fst (setDiffEqSolver "bogus" sample_subject)
     = Throw ("unknown solver: " +:+ "bogus")).
Proof.
  assert (Hnone : forall s, s ∈ solvers_ sample_subject ->
                            nameEquals s "bogus" = false)
    by (apply find_none_iff; reflexivity).
  split; [exact Hnone|].
  exact (unknown_name_keeps_current (naming := sample_naming)
           "bogus" sample_subject Hnone).
Defined.

(** C4 as stated fails: selecting the solver that is already active succeeds
    and emits no notification. *)
Lemma reselect_current_is_silent :
  getDiffEqSolver sample_subject = "RUNGE_KUTTA" /\
  returns (fst (setDiffEqSolver "RUNGE_KUTTA" sample_subject)) = true /\
  SolverSubject.notified_ (snd (setDiffEqSolver "RUNGE_KUTTA" sample_subject))
    = SolverSubject.notified_ sample_subject.
Proof. repeat split; reflexivity. Qed.

(** The initial state of the sample simulation, angle 0 and angular
    velocity 3, where the magnet of the sample wheel sits on the fixed magnet
    point: when nothing throws, the derivative of the angular velocity comes
    out as NaN and [evaluate] returns [null]. *)
Lemma evaluate_at_fixed_point_returns_null :
  getValues (varsList_ sample_sim)
    = [Some 0%float; Some 3%float; Some 0%float;
       Some 0%float; Some 0%float; Some 0%float] /\
  magnet_at_fixed_point (getValues (varsList_ sample_sim)) sample_sim = true /\
  (evaluate (getValues (varsList_ sample_sim)) (new_Array 6) 0%float
     sample_sim).1
    = (None, [Some 3%float; Some nan; Some 1%float;
              Some 0%float; Some 0%float; Some 0%float]).
Proof. repeat split; vm_compute; reflexivity. Qed.

(** The initial state of the sample simulation, where the magnet sits on
    the fixed point. *)
Lemma evaluate_returns_null_witness :
  magnet_at_fixed_point (getValues (varsList_ sample_sim)) sample_sim = true /\
  (evaluate (getValues (varsList_ sample_sim)) (new_Array 6) 0%float
     sample_sim).1.1 = None /\
  aget (evaluate (getValues (varsList_ sample_sim)) (new_Array 6) 0%float
          sample_sim).1.2 1 = Some nan.
Proof.
  assert (Hat : magnet_at_fixed_point (getValues (varsList_ sample_sim))
                  sample_sim = true)
    by (vm_compute; reflexivity).
  split; [exact Hat|].
  pose proof (evaluate_returns_null (wheelMethods := sample_wheel)
                (getValues (varsList_ sample_sim)) (new_Array 6) 0%float
                sample_sim) as [Hnull Hnan].
  split; [exact Hnull | exact (Hnan Hat)].
Defined.

(** The slot of the potential energy after [evaluate] on the sample
    simulation. *)
Lemma evaluate_computed_slots_zero_witness :
  3 <= 4 /\
  aget (evaluate (getValues (varsList_ sample_sim)) (new_Array 6) 0%float
          sample_sim).1.2 4
    = aget (zeroArray (new_Array 6)) 4 /\
  (4 < length (new_Array 6) ->
   aget (evaluate (getValues (varsList_ sample_sim)) (new_Array 6) 0%float
           sample_sim).1.2 4
     = Some 0%float).
Proof.
  split; [lia|].
  apply (evaluate_computed_slots_zero (wheelMethods := sample_wheel)
           (getValues (varsList_ sample_sim)) (new_Array 6) 0%float
           sample_sim 4).
  lia.
Defined.

(** [setMass] and [modifyObjects] on the sample simulation. *)
Example setMass_sample :
  seq_ <$> varsList_ sample_sim = [0; 1; 0; 0; 0; 0] /\
  seq_ <$> varsList_ (setMass 2%float sample_sim) = [0; 1; 0; 1; 1; 1] /\
  notified_ (setMass 2%float sample_sim) = [mkEvent "mass" 2%float].
Proof. repeat split; vm_compute; reflexivity. Qed.

Example modifyObjects_sample :
  (modifyObjects sample_sim).1 = Normal tt /\
  value_ <$> varsList_ (modifyObjects sample_sim).2
    = [0%float; 3%float; 0%float; 4.5%float; 0%float; 4.5%float] /\
  seq_ <$> varsList_ (modifyObjects sample_sim).2 = [0; 1; 0; 0; 0; 0].
Proof. repeat split; vm_compute; reflexivity. Qed.

(** A short [change] array has no slots 3, 4 and 5 to hold a zero. *)
Example evaluate_short_change :
  (evaluate [] [] 0%float sample_sim).1.2 = [None; Some nan; Some 1%float].
Proof. vm_compute. reflexivity. Qed.

End Examples.

(** ** Further properties of DiffEqSolverSubject *)

Module SubjectMore.

Import SolverSubject Samples Operations SubjectFacts.

Section Facts.

Context {ODESim EnergySystem : Type}.
Context {naming : SolverNaming ODESim EnergySystem}.

Implicit Types (this : DiffEqSolverSubject ODESim EnergySystem).
Implicit Types (s solver : DiffEqSolver ODESim EnergySystem).
Implicit Types (value : string) (names : list string).

(** The three outcomes of a call, side by side. *)
Lemma setDiffEqSolver_cases value this :
  (nameEquals (odeSolver_ (advanceStrategy_ this)) value = true /\
   setDiffEqSolver value this = (Normal tt, this)) \/
  (exists solver,
     nameEquals (odeSolver_ (advanceStrategy_ this)) value = false /\
     List.find (fun s => nameEquals s value) (solvers_ this) = Some solver /\
     setDiffEqSolver value this =
       (Normal tt,
        broadcastParameter en_DIFF_EQ_SOLVER
          (with_advanceStrategy (mkAdvance solver) this))) \/
  (nameEquals (odeSolver_ (advanceStrategy_ this)) value = false /\
   List.find (fun s => nameEquals s value) (solvers_ this) = None /\
   setDiffEqSolver value this = (Throw ("unknown solver: " +:+ value), this)).
Proof.
  destruct (nameEquals (odeSolver_ (advanceStrategy_ this)) value) eqn:Hc.
  - left. split; [reflexivity|]. now apply setDiffEqSolver_same.
  - destruct (List.find (fun s => nameEquals s value) (solvers_ this))
      as [solver|] eqn:Hf.
    + right. left. exists solver. repeat split.
      now apply setDiffEqSolver_found.
    + right. right. repeat split. now apply setDiffEqSolver_unknown.
Qed.

(** X1: a second call of [setDiffEqSolver] with the same name has the outcome
    of the first and changes nothing more: no further swap, no further
    notification. *)
Theorem setDiffEqSolver_twice value this :
  setDiffEqSolver value (setDiffEqSolver value this).2
    = ((setDiffEqSolver value this).1, (setDiffEqSolver value this).2).
Proof.
  destruct (setDiffEqSolver_cases value this)
    as [[Hc ->]|[(solver & Hc & Hf & ->)|(Hc & Hf & ->)]]; simpl.
  - now apply setDiffEqSolver_same.
  - apply setDiffEqSolver_same. simpl. exact (find_some_holds _ _ _ Hf).
  - now apply setDiffEqSolver_unknown.
Qed.

(** X2: [setDiffEqSolver] never touches the registry, the Parameter, the
    simulation, the energy system or the name of the subject, and it never
    drops or rewrites a notification: the old notifications are a prefix of
    the new ones, which are at most one more. *)
Theorem setDiffEqSolver_frame value this :
  solvers_ (setDiffEqSolver value this).2 = solvers_ this /\
  paramList_ (setDiffEqSolver value this).2 = paramList_ this /\
  sim_ (setDiffEqSolver value this).2 = sim_ this /\
  energySystem_ (setDiffEqSolver value this).2 = energySystem_ this /\
  name_ (setDiffEqSolver value this).2 = name_ this /\
  SolverSubject.notified_ this
    `prefix_of` SolverSubject.notified_ (setDiffEqSolver value this).2 /\
  length (SolverSubject.notified_ (setDiffEqSolver value this).2)
    <= S (length (SolverSubject.notified_ this)).
Proof.
  destruct (setDiffEqSolver_cases value this)
    as [[Hc ->]|[(solver & Hc & Hf & ->)|(Hc & Hf & ->)]]; simpl;
    repeat split; try reflexivity; try lia.
  - apply prefix_app_r. reflexivity.
  - rewrite length_app. simpl. lia.
Qed.

(** X3: when the name is not that of the active solver and the call returns,
    the solver now active is the first solver of the registry, in registry
    order, that answers to the name. *)
Theorem setDiffEqSolver_installs_first_match value this :
  nameEquals (odeSolver_ (advanceStrategy_ this)) value = false ->
  returns (setDiffEqSolver value this).1 = true ->
  List.find (fun s => nameEquals s value) (solvers_ this)
    = Some (odeSolver_ (advanceStrategy_ (setDiffEqSolver value this).2)) /\
  odeSolver_ (advanceStrategy_ (setDiffEqSolver value this).2)
    ∈ solvers_ this /\
  nameEquals (odeSolver_ (advanceStrategy_ (setDiffEqSolver value this).2))
    value = true.
Proof.
  intros Hcur Hret.
  destruct (setDiffEqSolver_cases value this)
    as [[Hc E]|[(solver & Hc & Hf & E)|(Hc & Hf & E)]];
    rewrite E in *; simpl in *; try congruence.
  split; [exact Hf|]. split.
  - apply list_elem_of_In. exact (proj1 (find_some _ _ Hf)).
  - exact (find_some_holds _ _ _ Hf).
Qed.

Lemma select_all_solvers names this :
  solvers_ (select_all names this) = solvers_ this.
Proof.
  revert this. induction names as [|value names IH]; intros this; simpl.
  - reflexivity.
  - unfold select_all in *. simpl. rewrite IH.
    destruct (setDiffEqSolver_cases value this)
      as [[Hc ->]|[(solver & Hc & Hf & ->)|(Hc & Hf & ->)]]; reflexivity.
Qed.

(** X4: the values and the choices of the Parameter made by the constructor
    are the names of the registered solvers, in registry order; and when
    every solver answers to its own language-independent name, each of these
    values is accepted by [setDiffEqSolver], whatever selections were made
    before. *)
Theorem offered_values_are_accepted (sim : ODESim)
    (es : option EnergySystem) (adv : ODEAdvance ODESim EnergySystem)
    (opt_name : option string) names value :
  (forall s, nameEquals s (getName s false) = true) ->
  value ∈ map (fun s => getName s false) (make_solvers sim es) ->
  paramList_ (new_DiffEqSolverSubject sim es adv opt_name)
    = [mkParameterString en_DIFF_EQ_SOLVER
         (map (fun s => getName s true) (make_solvers sim es))
         (map (fun s => getName s false) (make_solvers sim es))] /\
  returns
    (setDiffEqSolver value
       (select_all names (new_DiffEqSolverSubject sim es adv opt_name))).1
    = true.
Proof.
  intros Hown Hin. split; [reflexivity|].
  apply list_elem_of_fmap in Hin as (s & -> & Hs).
  set (this := select_all names _).
  assert (Hreg : s ∈ solvers_ this)
    by (unfold this; rewrite select_all_solvers; exact Hs).
  destruct (setDiffEqSolver_cases (getName s false) this)
    as [[Hc ->]|[(solver & Hc & Hf & ->)|(Hc & Hf & _)]];
    try reflexivity.
  exfalso. rewrite find_none_iff in Hf.
  specialize (Hf s Hreg). simpl in Hf. rewrite Hown in Hf. discriminate.
Qed.

Lemma last_event_step value this :
  last_event_is_current this ->
  last_event_is_current (setDiffEqSolver value this).2.
Proof.
  intros Hinv.
  destruct (setDiffEqSolver_cases value this)
    as [[Hc ->]|[(solver & Hc & Hf & ->)|(Hc & Hf & ->)]]; simpl;
    try exact Hinv.
  unfold last_event_is_current. simpl. rewrite last_snoc. reflexivity.
Qed.

(** X5: on a subject made by the constructor and changed through
    [setDiffEqSolver] only, the newest notification, when there is one,
    carries the name that [getDiffEqSolver] returns: an observer that has
    been notified at all knows the active solver. *)
Theorem newest_notification_is_current (sim : ODESim)
    (es : option EnergySystem) (adv : ODEAdvance ODESim EnergySystem)
    (opt_name : option string) names :
  last_event_is_current
    (select_all names (new_DiffEqSolverSubject sim es adv opt_name)).
Proof.
  assert (Hgen : forall this,
            last_event_is_current this ->
            last_event_is_current (select_all names this)).
  { induction names as [|value names IH]; intros this Hinv; simpl.
    - exact Hinv.
    - apply IH. now apply last_event_step. }
  apply Hgen. exact I.
Qed.

Lemma select_all_not_adaptive names this :
  Forall (fun s => isAdaptive s = false) (solvers_ this) ->
  isAdaptive (odeSolver_ (advanceStrategy_ this)) = false ->
  isAdaptive (odeSolver_ (advanceStrategy_ (select_all names this))) = false.
Proof.
  revert this. induction names as [|value names IH]; intros this Hreg Hcur.
  - exact Hcur.
  - simpl. unfold select_all in *. simpl. apply IH.
    + destruct (setDiffEqSolver_cases value this)
        as [[Hc ->]|[(solver & Hc & Hf & ->)|(Hc & Hf & ->)]]; exact Hreg.
    + destruct (setDiffEqSolver_cases value this)
        as [[Hc ->]|[(solver & Hc & Hf & ->)|(Hc & Hf & ->)]]; simpl;
        try exact Hcur.
      rewrite Forall_forall in Hreg. apply Hreg.
      apply list_elem_of_In. exact (proj1 (find_some _ _ Hf)).
Qed.

(** X6: a subject made without an energy system never makes an adaptive
    solver the active one: if the advance strategy starts with a solver that
    is not adaptive, then after any selections the active solver is not
    adaptive either. *)
Theorem no_adaptive_without_energy (sim : ODESim)
    (adv : ODEAdvance ODESim EnergySystem) (opt_name : option string) names :
  isAdaptive (odeSolver_ adv) = false ->
  isAdaptive
    (odeSolver_
       (advanceStrategy_
          (select_all names
             (new_DiffEqSolverSubject sim None adv opt_name)))) = false.
Proof.
  intros Hadv. apply select_all_not_adaptive; [|exact Hadv].
  simpl. repeat constructor.
Qed.

End Facts.

End SubjectMore.

(** ** Further properties of MagnetWheelSim *)

Module WheelMore.

Import WheelSim Samples Props Operations WheelFacts.

Lemma length_aset (a : JsArray) (i : nat) (v : option float) :
  length (aset i v a) = max (length a) (S i).
Proof.
  unfold aset. case_decide as Hi.
  - rewrite length_insert. lia.
  - rewrite !length_app, length_replicate. simpl. lia.
Qed.

Lemma zeroArray_length_only (a b : JsArray) :
  length a = length b -> zeroArray a = zeroArray b.
Proof.
  revert b. induction a as [|x a IH]; intros [|y b] Hlen;
    simpl in *; try discriminate; [reflexivity|].
  f_equal. apply IH. lia.
Qed.

Section Facts.

Context {wheelMethods : WheelMethods}.

Implicit Types (this : MagnetWheelSim) (vars change : JsArray).

Lemma magnets_loop_length this (m xf yf : float) (magnets : list Vector)
    change :
  1 < length change ->
  length (foldl (magnet_step this m xf yf) change magnets) = length change.
Proof.
  revert change.
  induction magnets as [|magnet magnets IH]; intros change Hlen; simpl.
  - reflexivity.
  - assert (Hstep : length (magnet_step this m xf yf change magnet)
                    = length change)
      by (unfold magnet_step; rewrite length_aset; lia).
    rewrite IH; [exact Hstep | lia].
Qed.

(** X7: whatever the inputs, [evaluate] leaves [change] with at least three
    slots (its length is the larger of the old length and 3), with the
    angular velocity [vars[1]] as the derivative of the angle in slot 0 and
    with 1 as the derivative of the time in slot 2. *)
Theorem evaluate_shape vars change (t : float) this :
  length (evaluate vars change t this).1.2 = max (length change) 3 /\
  aget (evaluate vars change t this).1.2 0 = aget vars 1 /\
  aget (evaluate vars change t this).1.2 2 = Some 1%float.
Proof.
  unfold evaluate. cbn [fst snd].
  set (c3 := aset 2 _ (aset 1 _ (aset 0 _ (zeroArray change)))).
  assert (Hc3 : length c3 = max (length change) 3).
  { unfold c3. rewrite !length_aset. unfold zeroArray.
    rewrite length_fmap. lia. }
  set (loop := foldl _ c3 _).
  assert (Hloop : length loop = length c3)
    by (apply magnets_loop_length; lia).
  assert (H0 : aget loop 0 = aget vars 1).
  { unfold loop. rewrite magnets_loop_frame by lia. unfold c3.
    rewrite !aget_aset_ne by lia. apply aget_aset_eq. }
  assert (H2 : aget loop 2 = Some 1%float).
  { unfold loop. rewrite magnets_loop_frame by lia. unfold c3.
    apply aget_aset_eq. }
  destruct (keyLeft_ (moveObjects vars this));
    [|destruct (keyRight_ (moveObjects vars this))];
    rewrite ?length_aset, ?aget_aset_ne by lia;
    (split; [lia|]; split; assumption).
Qed.

(** X8: [evaluate] reads neither the time step nor what [change] held
    before: two calls in the same state with [change] arrays of the same
    length give the same result. *)
Theorem evaluate_ignores_timeStep_and_old_change vars (change1 change2 : JsArray)
    (t1 t2 : float) this :
  length change1 = length change2 ->
  evaluate vars change1 t1 this = evaluate vars change2 t2 this.
Proof.
  intros Hlen. unfold evaluate.
  now rewrite (zeroArray_length_only change1 change2 Hlen).
Qed.

(** X9: the only effect of [evaluate] on the simulation is that of
    [moveObjects]: the wheel gets the angle [vars[0]] and the angular
    velocity [vars[1]] and keeps its mass, radius and magnets; the variables,
    the key flags and the notifications stay as they are; and evaluating
    again in the resulting state gives the same result. *)
Theorem evaluate_effect vars change (t : float) this :
  (evaluate vars change t this).2 = moveObjects vars this /\
  angle_ (wheel_ (evaluate vars change t this).2) = aget vars 0 /\
  angularVelocity_ (wheel_ (evaluate vars change t this).2) = aget vars 1 /\
  mass_ (wheel_ (evaluate vars change t this).2) = mass_ (wheel_ this) /\
  radius_ (wheel_ (evaluate vars change t this).2) = radius_ (wheel_ this) /\
  magnets_ (wheel_ (evaluate vars change t this).2) = magnets_ (wheel_ this) /\
  varsList_ (evaluate vars change t this).2 = varsList_ this /\
  notified_ (evaluate vars change t this).2 = notified_ this /\
  evaluate vars change t (evaluate vars change t this).2
    = evaluate vars change t this.
Proof. repeat split. Qed.

(** X10: the left key wins over the right key.  With the left key down the
    derivative of the angular velocity is the one without keys plus the key
    force, whether or not the right key is down too; with only the right key
    down it is the one without keys minus the key force. *)
Theorem evaluate_keys vars change (t : float) this (right : bool) :
  (evaluate vars change t (with_keys true right this)).1.2
    = aset 1
        (Some (toNumber
                 (aget (evaluate vars change t
                          (with_keys false false this)).1.2 1)
               + keyForce_ this)%float)
        (evaluate vars change t (with_keys false false this)).1.2 /\
  (evaluate vars change t (with_keys false true this)).1.2
    = aset 1
        (Some (toNumber
                 (aget (evaluate vars change t
                          (with_keys false false this)).1.2 1)
               + - keyForce_ this)%float)
        (evaluate vars change t (with_keys false false this)).1.2.
Proof. split; reflexivity. Qed.

(** X11: on a wheel without magnets and with no key down the derivative of
    the angular velocity is the damping term alone, [-damping * vars[1] / m],
    and the result is [[vars[1], -damping * vars[1] / m, 1, 0, ...]]. *)
Theorem evaluate_without_magnets vars change (t : float) this :
  magnets_ (wheel_ this) = [] ->
  keyLeft_ this = false ->
  keyRight_ this = false ->
  (evaluate vars change t this).1.2
    = aset 2 (Some 1%float)
        (aset 1 (Some (- damping_ this * toNumber (aget vars 1)
                       / mass_ (wheel_ this))%float)
           (aset 0 (aget vars 1) (zeroArray change))).
Proof.
  intros Hm Hl Hr. unfold evaluate. cbn [fst snd].
  change (keyLeft_ (moveObjects vars this)) with (keyLeft_ this).
  change (keyRight_ (moveObjects vars this)) with (keyRight_ this).
  change (magnets_ (wheel_ (moveObjects vars this)))
    with (magnets_ (wheel_ this)).
  rewrite Hm, Hl, Hr. reflexivity.
Qed.

Lemma with_keys_same this :
  with_keys (keyLeft_ this) (keyRight_ this) this = this.
Proof. now destruct this. Qed.

(** X12: [handleKeyEvent] changes nothing but the two key flags.  With Ctrl,
    Meta or Alt down, or for a key other than Left, J, Right and L, it
    changes nothing at all; otherwise Left or J sets the left flag to
    [pressed] and leaves the right flag, and Right or L sets the right flag
    and leaves the left flag. *)
Theorem handleKeyEvent_flags (keyCode : nat) (pressed : bool)
    (keyEvent : KeyEvent) this :
  handleKeyEvent keyCode pressed keyEvent this
    = with_keys (keyLeft_ (handleKeyEvent keyCode pressed keyEvent this))
        (keyRight_ (handleKeyEvent keyCode pressed keyEvent this)) this /\
  (ctrlKey keyEvent || metaKey keyEvent || altKey keyEvent = true ->
   handleKeyEvent keyCode pressed keyEvent this = this) /\
  (keyCode ∉ [37; 74; 39; 76] ->
   handleKeyEvent keyCode pressed keyEvent this = this) /\
  (ctrlKey keyEvent || metaKey keyEvent || altKey keyEvent = false ->
   (keyCode ∈ [37; 74] ->
    handleKeyEvent keyCode pressed keyEvent this
      = with_keys pressed (keyRight_ this) this) /\
   (keyCode ∈ [39; 76] ->
    handleKeyEvent keyCode pressed keyEvent this
      = with_keys (keyLeft_ this) pressed this)).
Proof.
  unfold handleKeyEvent, KeyCodes_LEFT, KeyCodes_J, KeyCodes_RIGHT, KeyCodes_L.
  destruct (ctrlKey keyEvent || metaKey keyEvent || altKey keyEvent).
  { rewrite with_keys_same. repeat split; intros; congruence. }
  destruct (Nat.eqb_spec keyCode 37) as [->|H37];
    [|destruct (Nat.eqb_spec keyCode 74) as [->|H74];
      [|destruct (Nat.eqb_spec keyCode 39) as [->|H39];
        [|destruct (Nat.eqb_spec keyCode 76) as [->|H76]]]];
    simpl; rewrite ?with_keys_same;
    repeat split; try reflexivity; intros; try discriminate;
    try match goal with
        | H : _ ∉ _ |- _ => exfalso; apply H; repeat constructor
        end;
    match goal with
    | H : _ ∈ _ |- _ => rewrite !elem_of_cons, elem_of_nil in H; lia
    end.
Qed.

(** X13: for each of the two Parameters that the constructor registers,
    DAMPING and MASS, the getter returns what the setter was given; the
    setter emits exactly one notification, which names the Parameter and
    carries the new value; it leaves the value of the other Parameter, the
    values of all variables and the key flags as they were. *)
Theorem parameter_set_then_get (p : ParameterNumber) (value : float) this :
  p ∈ parameters ->
  pn_getter p (pn_setter p value this) = value /\
  notified_ (pn_setter p value this)
    = notified_ this ++ [mkEvent (pn_name p) value] /\
  (forall q, q ∈ parameters -> pn_name q ≠ pn_name p ->
             pn_getter q (pn_setter p value this) = pn_getter q this) /\
  value_ <$> varsList_ (pn_setter p value this) = value_ <$> varsList_ this /\
  keyLeft_ (pn_setter p value this) = keyLeft_ this /\
  keyRight_ (pn_setter p value this) = keyRight_ this.
Proof.
  unfold parameters. rewrite !elem_of_cons, elem_of_nil.
  intros [->|[->|[]]]; simpl.
  - repeat split.
    intros q. rewrite !elem_of_cons, elem_of_nil.
    intros [->|[->|[]]] Hne; simpl in *; [congruence|reflexivity].
  - split; [reflexivity|]. split; [reflexivity|]. split.
    + intros q. rewrite !elem_of_cons, elem_of_nil.
      intros [->|[->|[]]] Hne; simpl in *; [reflexivity|congruence].
    + split; [|split; reflexivity].
      exact (value_incrSequence [3; 4; 5] (varsList_ this)).
Qed.

(** X14: [startDrag] returns true exactly for the wheel and then sets the
    dragging flag; [finishDrag] clears it and [mouseDrag] does nothing.  The
    flag is never read by the physics: [evaluate], [getEnergyInfo] and
    [modifyObjects] give the same derivative, the same energies and the same
    variables whatever its value. *)
Theorem dragging_is_inert (simObject : SimObjectRef) (location offset : Vector)
    (d : bool) vars change (t : float) this :
  (startDrag simObject location offset this).1
    = match simObject with TheWheel => true | NotTheWheel => false end /\
  isDragging (startDrag simObject location offset this).2
    = match simObject with TheWheel => true | NotTheWheel => isDragging this end /\
  isDragging
    (finishDrag simObject location offset
       (startDrag simObject location offset this).2) = false /\
  mouseDrag simObject location offset this = this /\
  (evaluate vars change t (with_isDragging d this)).1
    = (evaluate vars change t this).1 /\
  (getEnergyInfo (with_isDragging d this)).1 = (getEnergyInfo this).1 /\
  (modifyObjects (with_isDragging d this)).1 = (modifyObjects this).1 /\
  varsList_ (modifyObjects (with_isDragging d this)).2
    = varsList_ (modifyObjects this).2.
Proof.
  split; [now destruct simObject|]. split; [now destruct simObject|].
  split; [now destruct simObject|]. split; [reflexivity|].
  split; [reflexivity|]. split; [reflexivity|].
  rewrite !modifyObjects_unfold. split; reflexivity.
Qed.

(** X15: the angle and the angular velocity that the wheel held before a
    call never reach a result: [evaluate], [getEnergyInfo] and
    [modifyObjects] place the wheel from the variables they are given or
    read before they use it. *)
Theorem stale_wheel_does_not_leak (a w : option float) vars change
    (t : float) this :
  (evaluate vars change t
     (with_wheel (Wheel_setAngle a (Wheel_setAngularVelocity w (wheel_ this)))
        this))
    = evaluate vars change t this /\
  getEnergyInfo
    (with_wheel (Wheel_setAngle a (Wheel_setAngularVelocity w (wheel_ this)))
       this)
    = getEnergyInfo this /\
  modifyObjects
    (with_wheel (Wheel_setAngle a (Wheel_setAngularVelocity w (wheel_ this)))
       this)
    = modifyObjects this.
Proof.
  split; [reflexivity|]. split; [reflexivity|].
  rewrite !modifyObjects_unfold. reflexivity.
Qed.

(** X16: the mark that [setMass] leaves on the energy slots survives the
    bookkeeping step: after [setMass] and then [modifyObjects] the counters
    of the slots 3, 4 and 5 are one higher than before [setMass] and all
    other counters are as before. *)
Theorem setMass_then_modifyObjects (value : float) this :
  seq_ <$> varsList_ (modifyObjects (setMass value this)).2
    = bumped [3; 4; 5] (seq_ <$> varsList_ this).
Proof.
  rewrite modifyObjects_unfold. cbn [snd].
  change (varsList_ (with_varsList ?va _)) with va.
  rewrite seq_setValues_continuous.
  exact (seq_incrSequence_345 (varsList_ this)).
Qed.

(** *** The bookkeeping step *)

Lemma lookup_aset_eq (a : JsArray) (i : nat) (v : option float) :
  aset i v a !! i = Some v.
Proof.
  unfold aset. case_decide as Hi.
  - now rewrite list_lookup_insert_eq.
  - rewrite lookup_app_r by lia.
    rewrite lookup_app_r by (rewrite length_replicate; lia).
    rewrite length_replicate, Nat.sub_diag. reflexivity.
Qed.

Lemma lookup_aset_ne (a : JsArray) (i j : nat) (v : option float) :
  i ≠ j -> i < length a -> aset j v a !! i = a !! i.
Proof.
  intros Hij Hi. unfold aset. case_decide.
  - now rewrite list_lookup_insert_ne.
  - now rewrite lookup_app_l.
Qed.

Lemma aset_id (a : JsArray) (i : nat) (v : option float) :
  a !! i = Some v -> aset i v a = a.
Proof.
  intros H. unfold aset.
  rewrite decide_True by (eapply lookup_lt_Some; exact H).
  now apply list_insert_id.
Qed.

(** Writing the three energy slots a second time changes nothing. *)
Lemma aset_energy_twice (a : JsArray) (k p e : option float) :
  aset 5 e (aset 4 p (aset 3 k (aset 5 e (aset 4 p (aset 3 k a)))))
    = aset 5 e (aset 4 p (aset 3 k a)).
Proof.
  set (w3 := aset 3 k a). set (w4 := aset 4 p w3). set (w5 := aset 5 e w4).
  assert (L3 : 4 <= length w3) by (unfold w3; rewrite length_aset; lia).
  assert (L4 : 5 <= length w4) by (unfold w4; rewrite length_aset; lia).
  assert (H3 : w5 !! 3 = Some k).
  { unfold w5, w4.
    rewrite (lookup_aset_ne (aset 4 p w3) 3 5), (lookup_aset_ne w3 3 4)
      by (rewrite ?length_aset; lia).
    apply lookup_aset_eq. }
  assert (H4 : w5 !! 4 = Some p).
  { unfold w5. rewrite (lookup_aset_ne w4 4 5) by lia.
    apply lookup_aset_eq. }
  assert (H5 : w5 !! 5 = Some e) by apply lookup_aset_eq.
  rewrite (aset_id w5 3 k H3), (aset_id w5 4 p H4).
  now apply aset_id.
Qed.

Lemma length_written_vars this :
  length (written_vars this) = max (length (varsList_ this)) 6.
Proof.
  unfold written_vars. rewrite !length_aset. unfold getValues.
  rewrite length_fmap. lia.
Qed.

Lemma aset_keeps_numbers (a : JsArray) (i : nat) (x : float) :
  Forall is_Some a -> i < length a -> Forall is_Some (aset i (Some x) a).
Proof.
  intros Ha Hi. unfold aset. rewrite decide_True by exact Hi.
  apply Forall_insert; [exact Ha | now eexists].
Qed.

Lemma written_vars_all_numbers this :
  6 <= length (varsList_ this) -> Forall is_Some (written_vars this).
Proof.
  intros Hlen. unfold written_vars.
  repeat apply aset_keeps_numbers; rewrite ?length_aset; unfold getValues;
    rewrite ?length_fmap; try lia.
  apply Forall_fmap, Forall_true. intros v. now eexists.
Qed.

Lemma getValues_write (c : bool) (w : JsArray) (va : VarsList) :
  length w = length va -> Forall is_Some w ->
  getValues (zip_with (fun x v => Variable_write c (toNumber x) v) w va) = w.
Proof.
  revert va. induction w as [|x w IH]; intros [|v va] Hlen Hall;
    simpl in *; try discriminate; [reflexivity|].
  apply Forall_cons in Hall as [[y ->] Hall].
  simpl. f_equal. apply IH; [lia | exact Hall].
Qed.

Lemma write_twice (w : JsArray) (va : VarsList) :
  zip_with (fun x v => Variable_write true (toNumber x) v) w
    (zip_with (fun x v => Variable_write true (toNumber x) v) w va)
  = zip_with (fun x v => Variable_write true (toNumber x) v) w va.
Proof.
  revert va. induction w as [|x w IH]; intros [|v va]; simpl;
    try reflexivity.
  f_equal. apply IH.
Qed.

(** A write keeps what it does not set. *)
Lemma fmap_write_frame {B : Type} (f : ConcreteVariable -> B) (c : bool)
    (w : JsArray) (va : VarsList) :
  (forall x v, f (Variable_write c x v) = f v) ->
  length w = length va ->
  f <$> zip_with (fun x v => Variable_write c (toNumber x) v) w va = f <$> va.
Proof.
  intros Hf. revert va. induction w as [|x w IH]; intros [|v va] Hlen;
    simpl in *; try discriminate; [reflexivity|].
  rewrite Hf. f_equal. apply IH. lia.
Qed.

Lemma fmap_setValues_frame {B : Type} (f : ConcreteVariable -> B) (c : bool)
    (w : JsArray) (va : VarsList) :
  (forall x v, f (Variable_write c x v) = f v) ->
  f <$> (setValues w c va).2 = f <$> va.
Proof.
  intros Hf. unfold setValues. case_decide; simpl; [|reflexivity].
  now apply fmap_write_frame.
Qed.


(** X18: [modifyObjects] is idempotent: a second call right after the first
    has the same outcome and leaves the simulation as the first left it. *)
Theorem modifyObjects_twice this :
  modifyObjects (modifyObjects this).2 = modifyObjects this.
Proof.
  rewrite (modifyObjects_unfold this). cbn [snd].
  pose proof (length_written_vars this) as Hlen.
  unfold setValues at 1 2 3.
  destruct (decide (length (written_vars this) = length (varsList_ this)))
    as [Heq|Hne]; cbn [fst snd].
  - set (w := written_vars this) in *.
    set (va' := zip_with _ w (varsList_ this)).
    assert (Hvals : getValues va' = w).
    { apply getValues_write; [exact Heq|].
      apply written_vars_all_numbers. lia. }
    assert (H0 : aget w 0 = aget (getValues (varsList_ this)) 0)
      by (unfold w, written_vars; now rewrite !aget_aset_ne by lia).
    assert (H1 : aget w 1 = aget (getValues (varsList_ this)) 1)
      by (unfold w, written_vars; now rewrite !aget_aset_ne by lia).
    set (this' := with_varsList va' _).
    assert (Hmove : moveObjects (getValues va') this' = this').
    { unfold this', moveObjects, with_varsList, with_wheel. simpl.
      rewrite Hvals, H0, H1. reflexivity. }
    assert (Hw : written_vars this' = w).
    { unfold written_vars, getEnergyInfo.
      change (varsList_ this') with va'. rewrite Hmove, Hvals.
      exact (aset_energy_twice (getValues (varsList_ this))
               (Some (getTranslational (getEnergyInfo this).1))
               (Some (getPotential (getEnergyInfo this).1))
               (Some (getTotalEnergy (getEnergyInfo this).1))). }
    rewrite (modifyObjects_unfold this').
    change (varsList_ this') with va'. rewrite Hw, Hmove.
    unfold setValues.
    assert (Hlen' : length w = length va').
    { unfold va'. rewrite length_zip_with. lia. }
    rewrite decide_True by exact Hlen'. cbn [fst snd].
    assert (Hz : zip_with
                   (fun x v => Variable_write true (toNumber x) v) w va'
                 = va')
      by (unfold va'; apply write_twice).
    rewrite Hz. reflexivity.
  - set (this' := with_varsList (varsList_ this) _).
    rewrite (modifyObjects_unfold this').
    change (written_vars this') with (written_vars this).
    change (varsList_ this') with (varsList_ this).
    unfold setValues. rewrite decide_False by exact Hne. reflexivity.
Qed.

Lemma value_write (c : bool) (w : JsArray) (va : VarsList) :
  length w = length va ->
  value_ <$> zip_with (fun x v => Variable_write c (toNumber x) v) w va
    = toNumber <$> w.
Proof.
  revert va. induction w as [|x w IH]; intros [|v va] Hlen;
    simpl in *; try discriminate; [reflexivity|].
  f_equal. apply IH. lia.
Qed.

Lemma modifyObjects_written this :
  6 <= length (varsList_ this) ->
  value_ <$> varsList_ (modifyObjects this).2
    = toNumber <$> written_vars this.
Proof.
  intros Hlen. rewrite modifyObjects_unfold. cbn [snd].
  change (varsList_ (with_varsList ?va _)) with va.
  unfold setValues.
  rewrite decide_True by (rewrite length_written_vars; lia).
  cbn [snd]. apply value_write. rewrite length_written_vars. lia.
Qed.

(** What the bookkeeping step writes: the energies into the slots 3, 4 and
    5, and every other slot as it was. *)
Lemma modifyObjects_slot_values this :
  6 <= length (varsList_ this) ->
  (value_ <$> varsList_ (modifyObjects this).2) !! 3
    = Some (getTranslational (getEnergyInfo this).1) /\
  (value_ <$> varsList_ (modifyObjects this).2) !! 4 = Some 0%float /\
  (value_ <$> varsList_ (modifyObjects this).2) !! 5
    = Some (getTotalEnergy (getEnergyInfo this).1) /\
  (forall i, i ∉ [3; 4; 5] ->
     (value_ <$> varsList_ (modifyObjects this).2) !! i
       = (value_ <$> varsList_ this) !! i).
Proof.
  intros Hlen.
  rewrite (modifyObjects_written this Hlen), !list_lookup_fmap.
  assert (L0 : length (getValues (varsList_ this)) = length (varsList_ this))
    by (unfold getValues; now rewrite length_fmap).
  unfold written_vars.
  set (k := Some (getTranslational (getEnergyInfo this).1)).
  set (p := Some (getPotential (getEnergyInfo this).1)).
  set (e := Some (getTotalEnergy (getEnergyInfo this).1)).
  set (w3 := aset 3 k (getValues (varsList_ this))).
  set (w4 := aset 4 p w3).
  assert (L3 : length w3 = length (varsList_ this))
    by (unfold w3; rewrite length_aset; lia).
  assert (L4 : length w4 = length (varsList_ this))
    by (unfold w4; rewrite length_aset; lia).
  split.
  { rewrite (lookup_aset_ne w4 3 5) by lia. unfold w4.
    rewrite (lookup_aset_ne w3 3 4) by lia.
    unfold w3. now rewrite lookup_aset_eq. }
  split.
  { rewrite (lookup_aset_ne w4 4 5) by lia.
    unfold w4. now rewrite lookup_aset_eq. }
  split.
  { now rewrite lookup_aset_eq. }
  intros i Hi. rewrite elem_of_345 in Hi. rewrite !list_lookup_fmap.
  destruct (decide (i < length (varsList_ this))) as [Hlt|Hge].
  - rewrite (lookup_aset_ne w4 i 5) by lia. unfold w4.
    rewrite (lookup_aset_ne w3 i 4) by lia. unfold w3.
    rewrite (lookup_aset_ne (getValues (varsList_ this)) i 3) by lia.
    unfold getValues. rewrite list_lookup_fmap.
    now destruct (varsList_ this !! i).
  - rewrite (lookup_ge_None_2 (aset 5 e w4) i)
      by (rewrite length_aset; lia).
    rewrite (lookup_ge_None_2 (varsList_ this) i) by lia.
    reflexivity.
Qed.

(** X19: on a simulation with at least six variables [modifyObjects] writes
    the kinetic energy of the wheel into slot 3, zero into slot 4 and the
    total energy into slot 5, and keeps the value of every other slot; it
    keeps the names and the computed flags of all slots, and it leaves the
    wheel at the angle and angular velocity of the slots 0 and 1. *)
Theorem modifyObjects_writes_energy_slots this :
  6 <= length (varsList_ this) ->
  (value_ <$> varsList_ (modifyObjects this).2) !! 3
    = Some (getTranslational (getEnergyInfo this).1) /\
  (value_ <$> varsList_ (modifyObjects this).2) !! 4 = Some 0%float /\
  (value_ <$> varsList_ (modifyObjects this).2) !! 5
    = Some (getTotalEnergy (getEnergyInfo this).1) /\
  (forall i, i ∉ [3; 4; 5] ->
     (value_ <$> varsList_ (modifyObjects this).2) !! i
       = (value_ <$> varsList_ this) !! i) /\
  var_name <$> varsList_ (modifyObjects this).2 = var_name <$> varsList_ this /\
  isComputed_ <$> varsList_ (modifyObjects this).2
    = isComputed_ <$> varsList_ this /\
  angle_ (wheel_ (modifyObjects this).2)
    = aget (getValues (varsList_ this)) 0 /\
  angularVelocity_ (wheel_ (modifyObjects this).2)
    = aget (getValues (varsList_ this)) 1.
Proof.
  intros Hlen.
  rewrite (modifyObjects_written this Hlen), !list_lookup_fmap.
  assert (L0 : length (getValues (varsList_ this)) = length (varsList_ this))
    by (unfold getValues; now rewrite length_fmap).
  unfold written_vars.
  set (k := Some (getTranslational (getEnergyInfo this).1)).
  set (p := Some (getPotential (getEnergyInfo this).1)).
  set (e := Some (getTotalEnergy (getEnergyInfo this).1)).
  set (w3 := aset 3 k (getValues (varsList_ this))).
  set (w4 := aset 4 p w3).
  assert (L3 : length w3 = length (varsList_ this))
    by (unfold w3; rewrite length_aset; lia).
  assert (L4 : length w4 = length (varsList_ this))
    by (unfold w4; rewrite length_aset; lia).
  split.
  { rewrite (lookup_aset_ne w4 3 5) by lia. unfold w4.
    rewrite (lookup_aset_ne w3 3 4) by lia.
    unfold w3. now rewrite lookup_aset_eq. }
  split.
  { rewrite (lookup_aset_ne w4 4 5) by lia.
    unfold w4. now rewrite lookup_aset_eq. }
  split.
  { now rewrite lookup_aset_eq. }
  split.
  { intros i Hi. rewrite elem_of_345 in Hi. rewrite !list_lookup_fmap.
    destruct (decide (i < length (varsList_ this))) as [Hlt|Hge].
    - rewrite (lookup_aset_ne w4 i 5) by lia. unfold w4.
      rewrite (lookup_aset_ne w3 i 4) by lia. unfold w3.
      rewrite (lookup_aset_ne (getValues (varsList_ this)) i 3) by lia.
      unfold getValues. rewrite list_lookup_fmap.
      now destruct (varsList_ this !! i).
    - rewrite (lookup_ge_None_2 (aset 5 e w4) i)
        by (rewrite length_aset; lia).
      rewrite (lookup_ge_None_2 (varsList_ this) i) by lia.
      reflexivity. }
  rewrite modifyObjects_unfold. cbn [snd].
  change (varsList_ (with_varsList ?va _)) with va.
  split; [now apply fmap_setValues_frame|].
  split; [now apply fmap_setValues_frame|].
  split; reflexivity.
Qed.

Lemma fmap_incrSequence_frame {B : Type} (f : ConcreteVariable -> B)
    (indexes : list nat) (va : VarsList) :
  (forall v, f (Variable_incrSequence v) = f v) ->
  f <$> incrSequence indexes va = f <$> va.
Proof.
  intros Hf. unfold incrSequence. revert va.
  induction indexes as [|i indexes IH]; intros va; simpl; [reflexivity|].
  rewrite IH. apply list_eq. intros j.
  rewrite !list_lookup_fmap, list_lookup_alter.
  case_decide; [subst|reflexivity].
  destruct (va !! j); simpl; [now rewrite Hf | reflexivity].
Qed.

Lemma six_slots_after_call this (c : SimCall) :
  six_slots this -> six_slots (after_call this c).
Proof.
  intros [Hn Hc]. unfold six_slots.
  destruct c as [vars change t| | |value|value|value|keyCode pressed keyEvent
                |simObject location offset|simObject location offset
                |simObject location offset];
    cbn [after_call]; try (split; assumption).
  - rewrite modifyObjects_unfold. cbn [snd].
    change (varsList_ (with_varsList ?va _)) with va.
    rewrite !fmap_setValues_frame by reflexivity. now split.
  - change (varsList_ (setMass value this))
      with (incrSequence [3; 4; 5] (varsList_ this)).
    rewrite !fmap_incrSequence_frame by reflexivity. now split.
  - unfold handleKeyEvent.
    repeat match goal with |- context [if ?b then _ else _] => destruct b end;
      split; assumption.
  - destruct simObject; split; assumption.
Qed.

(** X20: whatever calls a client makes on a simulation made by the
    constructor, the variables remain the six slots angle, angular velocity,
    time and the three energies, with exactly the energy slots marked
    computed; so on every state that can be reached [modifyObjects]
    returns. *)
Theorem six_slots_always (calls : list SimCall) :
  six_slots (after_calls calls new_MagnetWheelSim) /\
  length (varsList_ (after_calls calls new_MagnetWheelSim)) = 6 /\
  (modifyObjects (after_calls calls new_MagnetWheelSim)).1 = Normal tt.
Proof.
  assert (Hinv : forall this,
            six_slots this -> six_slots (after_calls calls this)).
  { induction calls as [|c calls IH]; intros this H; simpl.
    - exact H.
    - apply IH. now apply six_slots_after_call. }
  assert (H6 : six_slots (after_calls calls new_MagnetWheelSim))
    by (apply Hinv; split; reflexivity).
  assert (Hlen : length (varsList_ (after_calls calls new_MagnetWheelSim)) = 6).
  { destruct H6 as [Hn _].
    apply (f_equal length) in Hn. rewrite length_fmap in Hn. exact Hn. }
  split; [exact H6|]. split; [exact Hlen|].
  rewrite modifyObjects_unfold. cbn [fst]. unfold setValues.
  rewrite decide_True by (rewrite length_written_vars; lia). reflexivity.
Qed.

Lemma reachable_has_six_slots (calls : list SimCall) :
  length (varsList_ (after_calls calls new_MagnetWheelSim)) = 6.
Proof.
  assert (Hinv : forall this,
            six_slots this -> six_slots (after_calls calls this)).
  { induction calls as [|c calls IH]; intros this H; simpl.
    - exact H.
    - apply IH. now apply six_slots_after_call. }
  destruct (Hinv new_MagnetWheelSim) as [Hn _]; [split; reflexivity|].
  apply (f_equal length) in Hn. rewrite length_fmap in Hn. exact Hn.
Qed.

Lemma modifyObjects_returns this :
  6 <= length (varsList_ this) -> (modifyObjects this).1 = Normal tt.
Proof.
  intros Hlen. rewrite modifyObjects_unfold. cbn [fst]. unfold setValues.
  rewrite decide_True by (rewrite length_written_vars; lia). reflexivity.
Qed.

(** C9: [modifyObjects] writes the variables with continuous = true.  For
    every state it leaves the change-sequence counter of every slot as it
    was.  On every state with the six variables (at least six), it returns
    and the write has taken place: slot 3 holds the kinetic energy of the
    wheel, slot 4 holds 0, slot 5 holds the total energy, and every other
    slot holds what it held.  Every state that calls on a simulation made by
    the constructor can reach has the six variables. *)
Theorem modifyObjects_continuous_write this :
  seq_ <$> varsList_ (modifyObjects this).2 = seq_ <$> varsList_ this /\
  (6 <= length (varsList_ this) ->
   (modifyObjects this).1 = Normal tt /\
   (value_ <$> varsList_ (modifyObjects this).2) !! 3
     = Some (getTranslational (getEnergyInfo this).1) /\
   (value_ <$> varsList_ (modifyObjects this).2) !! 4 = Some 0%float /\
   (value_ <$> varsList_ (modifyObjects this).2) !! 5
     = Some (getTotalEnergy (getEnergyInfo this).1) /\
   (forall i, i ∉ [3; 4; 5] ->
      (value_ <$> varsList_ (modifyObjects this).2) !! i
        = (value_ <$> varsList_ this) !! i)) /\
  (forall calls : list SimCall,
     6 <= length (varsList_ (after_calls calls new_MagnetWheelSim))).
Proof.
  split; [apply modifyObjects_seq_kept|]. split.
  - intros Hlen. split; [now apply modifyObjects_returns|].
    now apply modifyObjects_slot_values.
  - intros calls. rewrite reachable_has_six_slots. lia.
Qed.

End Facts.

End WheelMore.

(** ** The further theorems at concrete inputs *)

Module MoreExamples.

Import SolverSubject WheelSim Samples Props Operations.
Import SubjectFacts WheelFacts SubjectMore WheelMore.

(** Selecting Euler's method on the sample subject, whose active solver is
    Runge-Kutta. *)
Lemma setDiffEqSolver_installs_first_match_witness :
  nameEquals (odeSolver_ (advanceStrategy_ sample_subject)) "EULERS_METHOD"
    = false /\
  returns (setDiffEqSolver "EULERS_METHOD" sample_subject).1 = true /\
  List.find (fun s => nameEquals s "EULERS_METHOD") (solvers_ sample_subject)
    = Some (odeSolver_
              (advanceStrategy_
                 (setDiffEqSolver "EULERS_METHOD" sample_subject).2)) /\
  odeSolver_ (advanceStrategy_ (setDiffEqSolver "EULERS_METHOD" sample_subject).2)
    ∈ solvers_ sample_subject /\
  nameEquals
    (odeSolver_
       (advanceStrategy_ (setDiffEqSolver "EULERS_METHOD" sample_subject).2))
    "EULERS_METHOD" = true.
Proof.
  split; [reflexivity|]. split; [reflexivity|].
  apply (setDiffEqSolver_installs_first_match (naming := sample_naming)
           "EULERS_METHOD" sample_subject); reflexivity.
Defined.

(** The adaptive Runge-Kutta value of the sample subject, after a failed and
    a successful selection. *)
Lemma offered_values_are_accepted_witness :
  "ADAPTIVE_RUNGE_KUTTA"
    ∈ map (fun s => getName s false) (make_solvers tt (Some tt)) /\
  returns
    (setDiffEqSolver "ADAPTIVE_RUNGE_KUTTA"
       (select_all ["bogus"; "MODIFIED_EULER"] sample_subject)).1 = true.
Proof.
  assert (Hin : "ADAPTIVE_RUNGE_KUTTA"
                  ∈ map (fun s => getName s false)
                      (make_solvers tt (Some tt)))
    by (apply (list_elem_of_lookup_2 _ 4); reflexivity).
  split; [exact Hin|].
  apply (offered_values_are_accepted (naming := sample_naming)
           tt (Some tt) (mkAdvance (RungeKutta tt)) None
           ["bogus"; "MODIFIED_EULER"] "ADAPTIVE_RUNGE_KUTTA").
  - intros s. apply String.eqb_refl.
  - exact Hin.
Defined.

(** The sample subject without an energy system. *)
Lemma no_adaptive_without_energy_witness :
  isAdaptive (odeSolver_ (mkAdvance (RungeKutta tt)
                            : ODEAdvance unit unit)) = false /\
  isAdaptive
    (odeSolver_
       (advanceStrategy_
          (select_all ["ADAPTIVE_RUNGE_KUTTA"; "EULERS_METHOD"]
             sample_subject_no_energy))) = false.
Proof.
  split; [reflexivity|].
  apply (no_adaptive_without_energy (naming := sample_naming)
           tt (mkAdvance (RungeKutta tt)) None
           ["ADAPTIVE_RUNGE_KUTTA"; "EULERS_METHOD"]).
  reflexivity.
Defined.

(** A fresh [change] array and one that holds old derivatives. *)
Lemma evaluate_ignores_timeStep_and_old_change_witness :
  length (new_Array 6) = length upright_vars /\
  evaluate upright_vars (new_Array 6) 0%float sample_sim
    = evaluate upright_vars upright_vars 1%float sample_sim.
Proof.
  split; [reflexivity|].
  apply (evaluate_ignores_timeStep_and_old_change
           (wheelMethods := sample_wheel)).
  reflexivity.
Defined.

(** The simulation without magnets, in its initial state. *)
Lemma evaluate_without_magnets_witness :
  magnets_ (wheel_ bare_sim) = [] /\
  keyLeft_ bare_sim = false /\
  keyRight_ bare_sim = false /\
  (evaluate (getValues (varsList_ bare_sim)) (new_Array 6) 0%float
     bare_sim).1.2
    = aset 2 (Some 1%float)
        (aset 1 (Some (- damping_ bare_sim
                       * toNumber (aget (getValues (varsList_ bare_sim)) 1)
                       / mass_ (wheel_ bare_sim))%float)
           (aset 0 (aget (getValues (varsList_ bare_sim)) 1)
              (zeroArray (new_Array 6)))).
Proof.
  split; [reflexivity|]. split; [reflexivity|]. split; [reflexivity|].
  apply (evaluate_without_magnets (wheelMethods := sample_wheel));
    reflexivity.
Defined.

(** The MASS Parameter on the sample simulation. *)
Lemma parameter_set_then_get_witness :
  mkParameterNumber en_MASS getMass setMass
    ∈ parameters /\
  getMass (setMass 2%float sample_sim) = 2%float.
Proof.
  assert (Hin : mkParameterNumber en_MASS getMass setMass
                  ∈ parameters)
    by (apply (list_elem_of_lookup_2 _ 1); reflexivity).
  split; [exact Hin|].
  exact (proj1 (parameter_set_then_get
                  (mkParameterNumber en_MASS getMass setMass)
                  2%float sample_sim Hin)).
Defined.

(** The energy slots of the sample simulation after its first bookkeeping
    step. *)
Lemma modifyObjects_writes_energy_slots_witness :
  6 <= length (varsList_ sample_sim) /\
  (value_ <$> varsList_ (modifyObjects sample_sim).2) !! 3
    = Some (getTranslational (getEnergyInfo sample_sim).1).
Proof.
  assert (Hlen : 6 <= length (varsList_ sample_sim))
    by (vm_compute; reflexivity).
  split; [exact Hlen|].
  exact (proj1 (modifyObjects_writes_energy_slots
                  (wheelMethods := sample_wheel) sample_sim Hlen)).
Defined.

(** The derivative on the wheel without magnets: pure damping. *)
Example evaluate_bare_sample :
  (evaluate (getValues (varsList_ bare_sim)) (new_Array 6) 0%float
     bare_sim).1.2
    = [Some 3%float; Some (-2.0999999999999996)%float; Some 1%float;
       Some 0%float; Some 0%float; Some 0%float].
Proof. vm_compute. reflexivity. Qed.

(** The first bookkeeping step of the sample simulation: the kinetic energy
    4.5 of the wheel turning at 3 is written and no counter moves. *)
Lemma modifyObjects_continuous_write_witness :
  6 <= length (varsList_ sample_sim) /\
  seq_ <$> varsList_ (modifyObjects sample_sim).2
    = seq_ <$> varsList_ sample_sim /\
  (modifyObjects sample_sim).1 = Normal tt /\
  (value_ <$> varsList_ sample_sim) !! 3 = Some 0%float /\
  (value_ <$> varsList_ (modifyObjects sample_sim).2) !! 3 = Some 4.5%float.
Proof.
  assert (Hlen : 6 <= length (varsList_ sample_sim))
    by (vm_compute; reflexivity).
  pose proof (modifyObjects_continuous_write (wheelMethods := sample_wheel)
                sample_sim) as (Hseq & Hwrite & _).
  destruct (Hwrite Hlen) as (Hret & H3 & _).
  split; [exact Hlen|]. split; [exact Hseq|]. split; [exact Hret|].
  split; [reflexivity | exact H3].
Defined.

End MoreExamples.

(** ** [evaluate] whatever the code it calls does *)

Module FallibleFacts.

Import WheelSim Samples Props Fallible.

Lemma null_or_throw_ret {A : Type} : null_or_throw (ret (None : option A)).
Proof. intros st. left. reflexivity. Qed.

Lemma null_or_throw_bind {A B : Type} (m : M A) (k : A -> M (option B)) :
  (forall a, null_or_throw (k a)) -> null_or_throw (bind m k).
Proof.
  intros Hk st. unfold bind.
  destruct (m st) as [[a|message] st'].
  - apply Hk.
  - right. exists message. reflexivity.
Qed.

Section Quiet.

Context (wheelMethods : WheelMethods).

(** With called code that never throws the loop over the magnets is the
    fold of [magnet_step]. *)
Lemma for_each_quiet (m xf yf : float) (magnets : list Vector)
    (change : JsArray) (this : MagnetWheelSim) :
  for_each magnets (magnet_stepF (called := quiet_code wheelMethods) m xf yf)
    (change, this)
  = (Normal tt, (foldl (magnet_step this m xf yf) change magnets, this)).
Proof.
  revert change. induction magnets as [|magnet magnets IH]; intros change.
  - reflexivity.
  - cbn [for_each foldl]. unfold bind at 1.
    change (magnet_stepF (called := quiet_code wheelMethods) m xf yf magnet
              (change, this))
      with (Normal tt, (magnet_step this m xf yf change magnet, this)).
    apply IH.
Qed.

(** With called code that never throws [evaluateF] is [evaluate]. *)
Lemma evaluateF_quiet (vars change : JsArray) (t : float)
    (this : MagnetWheelSim) :
  evaluateF (called := quiet_code wheelMethods) vars t (change, this)
  = (Normal (evaluate vars change t this).1.1,
     ((evaluate vars change t this).1.2, (evaluate vars change t this).2)).
Proof.
  unfold evaluateF. cbn -[for_each].
  unfold bind at 1. rewrite for_each_quiet. cbn.
  destruct (keyLeft_ this); [reflexivity|].
  destruct (keyRight_ this); reflexivity.
Qed.

End Quiet.

(** C5, as amended: [evaluate] never returns a failure object.  Whatever the
    state, the arrays, the keys and the behaviour of the code it calls, its
    outcome is the returned [null] or an exception raised by the called
    code, never a returned error object; and when the called code does not
    throw, it returns [null]. *)
Theorem evaluate_never_returns_failure {called : CalledCode}
    (vars change : JsArray) (t : float) (this : MagnetWheelSim) :
  (forall object : Object,
     (evaluateF vars t (change, this)).1 <> Normal (Some object)) /\
  ((evaluateF vars t (change, this)).1 = Normal None \/
   exists message, (evaluateF vars t (change, this)).1 = Throw message) /\
  (forall wheelMethods : WheelMethods,
     (evaluateF (called := quiet_code wheelMethods) vars t (change, this)).1
       = Normal None).
Proof.
  assert (H : null_or_throw (evaluateF vars t)).
  { unfold evaluateF.
    repeat (apply null_or_throw_bind; intros).
    apply null_or_throw_ret. }
  split; [|split].
  - intros object E. destruct (H (change, this)) as [E'|[message E']];
      rewrite E in E'; discriminate.
  - apply H.
  - intros wheelMethods. now rewrite evaluateF_quiet.
Qed.

(** C5 as stated fails.  In the initial state of the sample simulation the
    magnet of the sample wheel sits on the fixed magnet point.  With a
    [Vector] that refuses NaN, [evaluate] throws when it scales the zero
    vector by 1/0; with a [Vector] that accepts NaN it returns [null].
    Either way it does not return a failure object. *)
Lemma evaluate_at_fixed_point_no_failure_object :
  magnet_at_fixed_point (getValues (varsList_ sample_sim)) sample_sim = true /\
  (evaluateF (called := strict_code sample_wheel)
     (getValues (varsList_ sample_sim)) 0%float
     (new_Array 6, sample_sim)).1 = Throw "not a number" /\
  (evaluateF (called := quiet_code sample_wheel)
     (getValues (varsList_ sample_sim)) 0%float
     (new_Array 6, sample_sim)).1 = Normal None.
Proof. repeat split; vm_compute; reflexivity. Qed.

End FallibleFacts.
